(** * The dashboard state service of qq-farm-bot

    A shallow embedding of the state service of the bot's dashboard module
    (the module the logger loads as [./dashboard]): status snapshots with an
    identity-scoped gold/exp baseline, derived metrics, the bounded log, the
    planting strategy store and the runtime settings, together with the
    properties the specification states about them.

    Conventions of the embedding.
    - JavaScript numbers are [number]: NaN, the two infinities and the finite
      values, the latter as exact rationals ([Qc]). Arithmetic is exact:
      binary64 rounding and the sign of zero are not modelled. The log id
      counter, which only ever counts up from 1, is an integer ([Z]).
    - JavaScript values are [value]. Objects that the store shares with its
      callers live in a heap ([gmap loc obj]) and are named by location, so
      that aliasing is visible.
    - An object passed as an argument and only read during the call (a status
      update, a patch, a decision) is given by the map of its own properties;
      [None] stands for an argument that is not an object.
    - Converting between strings, numbers and objects ([Builtins]) is a
      parameter of the functions that need it.
    - [Date.now()] and [new Date().toISOString()] are passed in as
      arguments; the external level curve [getLevelExpProgress] and the
      capacity [MAX_LOGS], read from the environment, are parameters. *)

From Stdlib Require Import ZArith QArith Qcanon Qround DecimalString.
From stdpp Require Import base numbers strings option list relations sorting gmap pretty.

Local Open Scope string_scope.
Local Open Scope Z_scope.
Local Open Scope list_scope.

(** ** Numbers *)

Module Num.

Inductive number : Type :=
  | NaN
  | PInf
  | NInf
  | Fin (q : Qc).

Definition num (z : Z) : number := Fin (Qc_of_Z z).
Definition frac (n : Z) (d : positive) : number := Fin (Q2Qc (n # d)).

Global Instance number_eq_dec : EqDecision number.
Proof. solve_decision. Defined.

(** [Number.isFinite] on a number. *)
Definition isFinite (x : number) : bool :=
  match x with Fin _ => true | _ => false end.

(** Truthiness of a number: everything but [NaN] and zero. *)
Definition truthy (x : number) : bool :=
  match x with
  | NaN => false
  | Fin q => negb (bool_decide (q = 0%Qc))
  | _ => true
  end.

(** [x || d] where [x] is a number. *)
Definition or (x d : number) : number := if truthy x then x else d.

(** [x < y]; every comparison with [NaN] is false. *)
Definition ltb (x y : number) : bool :=
  match x, y with
  | NaN, _ | _, NaN => false
  | _, NInf => false
  | NInf, _ => true
  | PInf, _ => false
  | _, PInf => true
  | Fin a, Fin b => bool_decide (a < b)%Qc
  end.

(** [x <= y]. *)
Definition leb (x y : number) : bool :=
  match x, y with
  | NaN, _ | _, NaN => false
  | NInf, _ => true
  | _, PInf => true
  | _, NInf => false
  | PInf, _ => false
  | Fin a, Fin b => bool_decide (a ≤ b)%Qc
  end.

Definition gtb (x y : number) : bool := ltb y x.
Definition geb (x y : number) : bool := leb y x.

(** [x === y] on numbers: [NaN] differs from itself. *)
Definition eqb (x y : number) : bool :=
  match x, y with
  | NaN, _ | _, NaN => false
  | _, _ => bool_decide (x = y)
  end.

Definition neg (x : number) : number :=
  match x with
  | NaN => NaN
  | PInf => NInf
  | NInf => PInf
  | Fin q => Fin (- q)%Qc
  end.

Definition add (x y : number) : number :=
  match x, y with
  | NaN, _ | _, NaN => NaN
  | PInf, NInf | NInf, PInf => NaN
  | PInf, _ | _, PInf => PInf
  | NInf, _ | _, NInf => NInf
  | Fin a, Fin b => Fin (a + b)%Qc
  end.

Definition sub (x y : number) : number := add x (neg y).

(** Sign of a number that is not [NaN]; zero counts as positive. *)
Definition negative (x : number) : bool := ltb x (num 0).

Definition signed_inf (negative : bool) : number :=
  if negative then NInf else PInf.

Definition is_zero (x : number) : bool :=
  match x with Fin q => bool_decide (q = 0%Qc) | _ => false end.

Definition mul (x y : number) : number :=
  match x, y with
  | NaN, _ | _, NaN => NaN
  | Fin a, Fin b => Fin (a * b)%Qc
  | _, _ =>
      if is_zero x || is_zero y then NaN
      else signed_inf (xorb (negative x) (negative y))
  end.

Definition div (x y : number) : number :=
  match x, y with
  | NaN, _ | _, NaN => NaN
  | Fin a, Fin b =>
      if bool_decide (b = 0%Qc)
      then (if bool_decide (a = 0%Qc) then NaN else signed_inf (negative x))
      else Fin (a / b)%Qc
  | Fin _, _ => num 0
  | _, Fin _ => signed_inf (xorb (negative x) (negative y))
  | _, _ => NaN
  end.

Definition abs (x : number) : number := if negative x then neg x else x.

(** [Math.floor]. *)
Definition floor (x : number) : number :=
  match x with
  | Fin q => num (Qfloor q)
  | _ => x
  end.

(** [Math.round]: to the nearest integer, halves towards +Infinity. *)
Definition round (x : number) : number :=
  match x with
  | Fin q => num (Qfloor (q + Q2Qc (1 # 2))%Qc)
  | _ => x
  end.

(** [Math.max] and [Math.min] of two numbers. *)
Definition max (x y : number) : number :=
  match x, y with
  | NaN, _ | _, NaN => NaN
  | _, _ => if ltb x y then y else x
  end.

Definition min (x y : number) : number :=
  match x, y with
  | NaN, _ | _, NaN => NaN
  | _, _ => if ltb y x then y else x
  end.

End Num.

Export Num(number, NaN, PInf, NInf, Fin, num, frac).

(** ** Values *)

(** Heap locations of objects. *)
Abbreviation loc := positive.

Inductive value : Type :=
  | VUndefined
  | VNull
  | VBool (b : bool)
  | VNum (n : number)
  | VStr (s : string)
  | VObj (l : loc).

Global Instance value_eq_dec : EqDecision value.
Proof. solve_decision. Defined.

(** An object is the map of its own properties. *)
Abbreviation obj := (gmap string value).

(** [o.k]: a missing property reads as [undefined]. *)
Definition prop (o : obj) (k : string) : value := default VUndefined (o !! k).

(** The conversions of the language that the embedding does not spell out:
    parsing a string as a number, printing a number, and the string an object
    converts to (its [toString()]; a plain object or an array converts to a
    number through that string). *)
Class Builtins : Type := {
  StringToNumber : string → number;
  NumberToString : number → string;
  ObjectToString : loc → string;
}.

Section Coercions.
Context `{Builtins}.

(** Truthiness ([!!v]). *)
Definition ToBoolean (v : value) : bool :=
  match v with
  | VUndefined | VNull => false
  | VBool b => b
  | VNum n => Num.truthy n
  | VStr s => negb (bool_decide (s = ""))
  | VObj _ => true
  end.

(** [Number(v)]. *)
Definition ToNumber (v : value) : number :=
  match v with
  | VUndefined => NaN
  | VNull => num 0
  | VBool b => if b then num 1 else num 0
  | VNum n => n
  | VStr s => StringToNumber s
  | VObj l => StringToNumber (ObjectToString l)
  end.

(** [String(v)]. *)
Definition ToString (v : value) : string :=
  match v with
  | VUndefined => "undefined"
  | VNull => "null"
  | VBool b => if b then "true" else "false"
  | VNum n => NumberToString n
  | VStr s => s
  | VObj l => ObjectToString l
  end.

End Coercions.

(** [a || b]. *)
Definition js_or (a b : value) : value := if ToBoolean a then a else b.

(** [a === b]. *)
Definition strict_eq (a b : value) : bool :=
  match a, b with
  | VNum x, VNum y => Num.eqb x y
  | _, _ => bool_decide (a = b)
  end.

(** [Number.isFinite(v)]: no conversion, only numbers qualify. *)
Definition Number_isFinite (v : value) : bool :=
  match v with VNum n => Num.isFinite n | _ => false end.

(** Truthiness of a string. *)
Definition nonempty (s : string) : bool := negb (bool_decide (s = "")).

(** ** The store *)

(** [state.baseline]; [None] is JavaScript's [null]. *)
Module Baseline.
Record t : Type := mk {
  gold : option number;
  exp : option number;
  ready : bool;
  key : string;
}.
End Baseline.

(** [state.strategy]; [lastDecision] is [null] or a reference to the object
    [recordStrategyDecision] created. *)
Record Strategy : Type := mkStrategy {
  mode : string;
  manualSeedId : number;
  manualSeedName : string;
  source : string;
  updatedAt : number;
  lastDecision : option loc;
}.

(** An entry of [state.logs]. *)
Module LogEntry.
Record t : Type := mk {
  id : Z;
  ts : string;
  level : value;
  message : string;
}.
End LogEntry.

(** The module-level [state] object, together with the heap of the objects
    it shares with its callers. The log id counter is an integer. *)
Record State : Type := mkState {
  startedAt : number;
  status : obj;
  baseline : Baseline.t;
  strategy : Strategy;
  logs : list LogEntry.t;
  nextLogId : Z;
  heap : gmap loc obj;
}.

Global Instance Baseline_eq_dec : EqDecision Baseline.t.
Proof. solve_decision. Defined.
Global Instance Strategy_eq_dec : EqDecision Strategy.
Proof. solve_decision. Defined.
Global Instance LogEntry_eq_dec : EqDecision LogEntry.t.
Proof. solve_decision. Defined.

(** The value [state] is initialised with. *)
Definition initial_state (now : number) : State :=
  {| startedAt := now;
     status := {[ "platform" := VStr "qq"; "name" := VStr "";
                  "level" := VNum (num 0); "gold" := VNum (num 0);
                  "exp" := VNum (num 0) ]};
     baseline := Baseline.mk None None false "";
     strategy := {| mode := "normalFert"; manualSeedId := num 0;
                    manualSeedName := ""; source := "auto";
                    updatedAt := num 0; lastDecision := None |};
     logs := [];
     nextLogId := 1;
     heap := ∅ |}.

Definition RATE_MIN_WINDOW_SEC : number := num 120.

(** ** Status updates and the baseline *)

Section Status.
Context `{Builtins}.

(** [Object.assign(target, source)]: the properties of [source] overwrite
    those of [target]. *)
Definition Object_assign (target source : obj) : obj := source ∪ target.

(** [String(status.name || '')] and [String(status.platform || '')]. *)
Definition status_name (s : obj) : string :=
  ToString (js_or (prop s "name") (VStr "")).
Definition status_platform (s : obj) : string :=
  ToString (js_or (prop s "platform") (VStr "")).

(** [!!name || Number(status.level || 0) > 0]. *)
Definition loginReady (s : obj) : bool :=
  nonempty (status_name s)
  || Num.gtb (ToNumber (js_or (prop s "level") (VNum (num 0)))) (num 0).

(** [loginReady ? (platform + ':' + name) : '']. *)
Definition identityKey (s : obj) : string :=
  if loginReady s then status_platform s +:+ ":" +:+ status_name s else "".

(** The first conditional of [updateStatus]: a ready baseline whose key is
    not the current identity key is cleared. *)
Definition invalidate (s : obj) (b : Baseline.t) : Baseline.t :=
  if Baseline.ready b && nonempty (identityKey s) && nonempty (Baseline.key b)
     && negb (bool_decide (identityKey s = Baseline.key b))
  then Baseline.mk None None false ""
  else b.

(** [prevName !== status.name || prevPlatform !== status.platform]. *)
Definition identityChanged (prev s : obj) : bool :=
  negb (strict_eq (prop prev "name") (prop s "name"))
  || negb (strict_eq (prop prev "platform") (prop s "platform")).

(** The condition of the second conditional of [updateStatus]. *)
Definition anchors (prev s : obj) (b : Baseline.t) : bool :=
  negb (Baseline.ready b) && loginReady s
  && (identityChanged prev s
      || Number_isFinite (prop s "exp") || Number_isFinite (prop s "gold")).

(** [Number.isFinite(v) ? Number(v) : 0]. *)
Definition finite_or_zero (v : value) : number :=
  if Number_isFinite v then ToNumber v else num 0.

(** The second conditional of [updateStatus]: anchoring a baseline. *)
Definition anchor (prev s : obj) (b : Baseline.t) : Baseline.t :=
  if anchors prev s b
  then Baseline.mk (Some (finite_or_zero (prop s "gold")))
                   (Some (finite_or_zero (prop s "exp")))
                   true (identityKey s)
  else b.

Definition updateStatus (partial : option obj) (st : State) : State :=
  match partial with
  | None => st
  | Some p =>
      let prev := status st in
      let s := Object_assign prev p in
      {| startedAt := startedAt st;
         status := s;
         baseline := anchor prev s (invalidate s (baseline st));
         strategy := strategy st;
         logs := logs st;
         nextLogId := nextLogId st;
         heap := heap st |}
  end.

End Status.

(** ** Metrics *)

(** What [getLevelExpProgress(level, exp)] returns: an object with the
    properties [current] and [needed]. *)
Record Progress : Type := mkProgress {
  current : value;
  needed : value;
}.

Record Metrics : Type := mkMetrics {
  expGain : number;
  goldGain : number;
  expPerHour : number;
  goldPerHour : number;
  rateReady : bool;
  rateWindowSec : number;
  expCurrent : number;
  expNeeded : number;
  expProgress : number;
  goldRateProgress : number;
}.

Section Metrics.
Context `{Builtins}.
(** The leveling curve of [gameConfig], an external function. *)
Variable getLevelExpProgress : number → number → Progress.

(** [Math.max(0, Math.min(100, x))]. *)
Definition clamp_0_100 (x : number) : number :=
  Num.max (num 0) (Num.min (num 100) x).

(** [rateReady ? Math.round(gain / (uptimeSec / 3600)) : 0]. *)
Definition perHour (ready : bool) (gain uptimeSec : number) : number :=
  if ready then Num.round (Num.div gain (Num.div uptimeSec (num 3600)))
  else num 0.

(** [ready && base !== null ? base : cur]. *)
Definition base_or (ready : bool) (base : option number) (cur : number) : number :=
  match base with
  | Some b => if ready then b else cur
  | None => cur
  end.

Definition buildMetrics (uptimeSec : number) (st : State) : Metrics :=
  let level := Num.or (ToNumber (prop (status st) "level")) (num 0) in
  let exp := Num.or (ToNumber (prop (status st) "exp")) (num 0) in
  let gold := Num.or (ToNumber (prop (status st) "gold")) (num 0) in
  let b := baseline st in
  let baseExp := base_or (Baseline.ready b) (Baseline.exp b) exp in
  let baseGold := base_or (Baseline.ready b) (Baseline.gold b) gold in
  let expGain := Num.sub exp baseExp in
  let goldGain := Num.sub gold baseGold in
  let progress := getLevelExpProgress level exp in
  let expNeeded := Num.or (ToNumber (needed progress)) (num 1) in
  let expCurrent := Num.or (ToNumber (current progress)) (num 0) in
  let rateReady := Num.geb uptimeSec RATE_MIN_WINDOW_SEC in
  let expPerHour := perHour rateReady expGain uptimeSec in
  let goldPerHour := perHour rateReady goldGain uptimeSec in
  {| expGain := expGain;
     goldGain := goldGain;
     expPerHour := expPerHour;
     goldPerHour := goldPerHour;
     rateReady := rateReady;
     rateWindowSec := RATE_MIN_WINDOW_SEC;
     expCurrent := expCurrent;
     expNeeded := expNeeded;
     expProgress :=
       clamp_0_100 (Num.round (Num.mul (Num.div expCurrent expNeeded) (num 100)));
     goldRateProgress :=
       clamp_0_100
         (Num.round (Num.mul (Num.div (Num.abs goldPerHour) (num 30000)) (num 100))) |}.

End Metrics.

(** ** The log *)

Section Logs.
Context `{Builtins}.
(** [Math.max(0, Number(process.env.DASHBOARD_MAX_LOGS || 120))]. *)
Variable MAX_LOGS : number.

(** [logs.shift()]: drops the first entry. *)
Definition shift (l : list LogEntry.t) : list LogEntry.t := tail l.

(** The object literal [item] of [addLog]. *)
Definition new_entry (level message : value) (nowIso : string) (st : State)
  : LogEntry.t :=
  LogEntry.mk (nextLogId st) nowIso level (ToString (js_or message (VStr ""))).

Definition addLog (level message : value) (nowIso : string) (st : State) : State :=
  if Num.leb MAX_LOGS (num 0) then st
  else
    let pushed := (logs st ++ [new_entry level message nowIso st])%list in
    {| startedAt := startedAt st;
       status := status st;
       baseline := baseline st;
       strategy := strategy st;
       logs := if Num.gtb (num (Z.of_nat (length pushed))) MAX_LOGS
               then shift pushed else pushed;
       nextLogId := nextLogId st + 1;
       heap := heap st |}.

End Logs.

Definition getLogsSince (sinceId : number) (st : State) : list LogEntry.t :=
  if negb (Num.isFinite sinceId) || Num.leb sinceId (num 0) then logs st
  else filter (λ item, Num.gtb (num (LogEntry.id item)) sinceId = true) (logs st).

(** ** The strategy store *)

(** Allocation of a new object (an object literal): a location the heap does
    not use yet. *)
Definition alloc (o : obj) (st : State) : loc * State :=
  let l := fresh (dom (heap st)) in
  (l, {| startedAt := startedAt st; status := status st;
         baseline := baseline st; strategy := strategy st;
         logs := logs st; nextLogId := nextLogId st;
         heap := <[l := o]> (heap st) |}).

Definition set_strategy (s : Strategy) (st : State) : State :=
  {| startedAt := startedAt st; status := status st;
     baseline := baseline st; strategy := s;
     logs := logs st; nextLogId := nextLogId st;
     heap := heap st |}.

(** What a caller holding a reference can do: [l.k = v]. *)
Definition set_prop (l : loc) (k : string) (v : value) (st : State) : State :=
  {| startedAt := startedAt st; status := status st;
     baseline := baseline st; strategy := strategy st;
     logs := logs st; nextLogId := nextLogId st;
     heap := alter (λ o, <[k := v]> o) l (heap st) |}.

(** A caller writing several properties of the object it holds. *)
Definition set_props (l : loc) (writes : list (string * value)) (st : State)
  : State :=
  foldl (λ st w, set_prop l w.1 w.2 st) st writes.

(** [x || null] for a reference that may be [null]. *)
Definition ref_or_null (r : option loc) : value :=
  match r with Some l => VObj l | None => VNull end.

(** The object literal [getStrategyConfig] returns. *)
Definition strategy_snapshot (s : Strategy) : obj :=
  {[ "mode" := VStr (mode s);
     "manualSeedId" := VNum (Num.or (manualSeedId s) (num 0));
     "manualSeedName" := js_or (VStr (manualSeedName s)) (VStr "");
     "source" := js_or (VStr (source s)) (VStr "auto");
     "updatedAt" := VNum (Num.or (updatedAt s) (num 0));
     "lastDecision" := ref_or_null (lastDecision s) ]}.

Definition getStrategyConfig (st : State) : loc * State :=
  alloc (strategy_snapshot (strategy st)) st.

Section Strategy.
Context `{Builtins}.

(** [if (patch.mode === 'normalFert' || patch.mode === 'noFert')
       state.strategy.mode = patch.mode]. *)
Definition apply_mode (p : obj) (s : Strategy) : Strategy :=
  match prop p "mode" with
  | VStr m =>
      if bool_decide (m = "normalFert") || bool_decide (m = "noFert")
      then mkStrategy m (manualSeedId s) (manualSeedName s) (source s)
                      (updatedAt s) (lastDecision s)
      else s
  | _ => s
  end.

(** [if (patch.clearManual) { ... }]. *)
Definition apply_clearManual (p : obj) (s : Strategy) : Strategy :=
  if ToBoolean (prop p "clearManual")
  then mkStrategy (mode s) (num 0) "" "auto" (updatedAt s) (lastDecision s)
  else s.

(** [Number(patch.manualSeedId) || 0]. *)
Definition patch_sid (p : obj) : number :=
  Num.or (ToNumber (prop p "manualSeedId")) (num 0).

(** [if (patch.manualSeedId !== undefined) { ... }]. *)
Definition apply_manualSeedId (p : obj) (s : Strategy) : Strategy :=
  if negb (strict_eq (prop p "manualSeedId") VUndefined)
  then
    let sid := patch_sid p in
    if Num.gtb sid (num 0)
    then mkStrategy (mode s) sid
           (ToString (js_or (prop p "manualSeedName")
                            (js_or (VStr (manualSeedName s)) (VStr ""))))
           "manual" (updatedAt s) (lastDecision s)
    else mkStrategy (mode s) sid (manualSeedName s) (source s)
                    (updatedAt s) (lastDecision s)
  else s.

Definition touch (now : number) (s : Strategy) : Strategy :=
  mkStrategy (mode s) (manualSeedId s) (manualSeedName s) (source s)
             now (lastDecision s).

(** The strategy record after [updateStrategyConfig(patch)]. *)
Definition patch_strategy (p : obj) (now : number) (s : Strategy) : Strategy :=
  touch now (apply_manualSeedId p (apply_clearManual p (apply_mode p s))).

Definition updateStrategyConfig (patch : option obj) (now : number) (st : State)
  : loc * State :=
  match patch with
  | None => getStrategyConfig st
  | Some p => getStrategyConfig (set_strategy (patch_strategy p now (strategy st)) st)
  end.

End Strategy.

(** [{ at: Date.now(), ...(decision || {}) }]: the properties of the decision
    are written after [at]. *)
Definition decision_record (decision : option obj) (now : number) : obj :=
  default ∅ decision ∪ {[ "at" := VNum now ]}.

Definition recordStrategyDecision (decision : option obj) (now : number) (st : State)
  : State :=
  let '(l, st') := alloc (decision_record decision now) st in
  set_strategy
    (mkStrategy (mode (strategy st')) (manualSeedId (strategy st'))
                (manualSeedName (strategy st')) (source (strategy st'))
                (updatedAt (strategy st')) (Some l))
    st'.

(** ** Runtime settings *)

(** Modelled from the spec: the shared [CONFIG] object of [./config], which
    is not among the sources. The specification has its intervals "stored
    internally as milliseconds", so the two fields that are read and written
    here are numbers. *)
Record Config : Type := mkConfig {
  farmCheckInterval : number;
  friendCheckInterval : number;
}.

Record Settings : Type := mkSettings {
  farmIntervalSec : number;
  friendIntervalSec : number;
}.

Global Instance Config_eq_dec : EqDecision Config.
Proof. solve_decision. Defined.
Global Instance Settings_eq_dec : EqDecision Settings.
Proof. solve_decision. Defined.

(** Computations that read and write [CONFIG] and may throw. *)
Inductive outcome (A : Type) : Type :=
  | Returned (a : A)
  | Thrown (msg : string).
Arguments Returned {A} a.
Arguments Thrown {A} msg.

Global Instance outcome_eq_dec `{EqDecision A} : EqDecision (outcome A).
Proof. solve_decision. Defined.

Definition M (A : Type) : Type := Config → outcome A * Config.

Global Instance M_ret : MRet M := λ A a c, (Returned a, c).
Global Instance M_bind : MBind M := λ A B k m c,
  match m c with
  | (Returned a, c') => k a c'
  | (Thrown msg, c') => (Thrown msg, c')
  end.
Definition throw {A} (msg : string) : M A := λ c, (Thrown msg, c).
Definition read_config : M Config := λ c, (Returned c, c).
Definition write_config (c' : Config) : M unit := λ _, (Returned tt, c').

(** [Math.max(1, Math.round(Number(ms || 1000) / 1000))]. *)
Definition interval_sec (ms : number) : number :=
  Num.max (num 1) (Num.round (Num.div (Num.or ms (num 1000)) (num 1000))).

Definition getRuntimeSettings : M Settings :=
  c ← read_config;
  mret {| farmIntervalSec := interval_sec (farmCheckInterval c);
         friendIntervalSec := interval_sec (friendCheckInterval c) |}.

Section Settings.
Context `{Builtins}.

(** [!Number.isFinite(n) || n <= 0]. *)
Definition invalid_interval (n : number) : bool :=
  negb (Num.isFinite n) || Num.leb n (num 0).

(** The validation of one provided field: the value converted to a number,
    rejected unless finite and positive, else floored to at least 1. *)
Definition checked_interval (v : value) (err : string) : M number :=
  let n := ToNumber v in
  if invalid_interval n then throw err
  else mret (Num.max (num 1) (Num.floor n)).

(** [patch && patch.k !== undefined]. *)
Definition provided (patch : option obj) (k : string) : bool :=
  match patch with
  | Some p => negb (strict_eq (prop p k) VUndefined)
  | None => false
  end.

Definition patch_prop (patch : option obj) (k : string) : value :=
  prop (default ∅ patch) k.

Definition updateRuntimeSettings (patch : option obj) : M Settings :=
  current ← getRuntimeSettings;
  farm ← (if provided patch "farmIntervalSec"
          then checked_interval (patch_prop patch "farmIntervalSec")
                                "invalid_farm_interval"
          else mret (farmIntervalSec current));
  friend ← (if provided patch "friendIntervalSec"
            then checked_interval (patch_prop patch "friendIntervalSec")
                                  "invalid_friend_interval"
            else mret (friendIntervalSec current));
  write_config {| farmCheckInterval := Num.mul farm (num 1000);
                  friendCheckInterval := Num.mul friend (num 1000) |};;
  mret {| farmIntervalSec := farm; friendIntervalSec := friend |}.

End Settings.

(** ** Runs and observations used by the properties *)

Section Runs.
Context `{Builtins}.

(** A sequence of [addLog(level, message)] calls, each with the timestamp it
    was made at. *)
Definition addLogs (MAX_LOGS : number) (calls : list (value * value * string))
    (st : State) : State :=
  foldl (λ st c, addLog MAX_LOGS c.1.1 c.1.2 c.2 st) st calls.

(** One call of the strategy store's writers. *)
Inductive strategy_step : State → State → Prop :=
  | step_update patch now st :
      strategy_step st (updateStrategyConfig patch now st).2
  | step_record decision now st :
      strategy_step st (recordStrategyDecision decision now st).

(** The states the strategy store reaches from its initial configuration. *)
Definition reachable (st : State) : Prop :=
  ∃ now, rtc strategy_step (initial_state now) st.

End Runs.

(** The ids in the buffer increase strictly and lie between 1 and the
    counter. *)
Definition ids_ordered (st : State) : Prop :=
  1 ≤ nextLogId st
  ∧ StronglySorted Z.lt (LogEntry.id <$> logs st)
  ∧ Forall (λ e, 1 ≤ LogEntry.id e < nextLogId st) (logs st).

(** The invariant of the strategy record: a positive manual seed id comes
    with the manual source. *)
Definition manual_consistent (s : Strategy) : Prop :=
  Num.gtb (manualSeedId s) (num 0) = true → source s = "manual".

(** The values a setting takes: a whole number of seconds, at least 1, or
    Infinity. *)
Definition whole_seconds (x : number) : Prop :=
  x = PInf ∨ ∃ z, 1 ≤ z ∧ x = num z.

(** What the store holds about the strategy: the record and, through its
    [lastDecision] reference, the decision object. *)
Definition strategy_view (st : State) : Strategy * option obj :=
  (strategy st, lastDecision (strategy st) ≫= λ l, heap st !! l).

(** The decision reference of the store points into the heap. *)
Definition heap_closed (st : State) : Prop :=
  ∀ l, lastDecision (strategy st) = Some l → is_Some (heap st !! l).

(** A level curve that answers the same progress for every level. *)
Definition constant_progress (cur need : value) : number → number → Progress :=
  λ _ _, mkProgress cur need.

(** The conversions on integers written in decimal, for closed examples. *)
Definition decimal_builtins : Builtins :=
  {| StringToNumber := λ s,
       if bool_decide (s = "") then num 0
       else match NilZero.int_of_string s with
            | Some i => num (Z.of_int i)
            | None => NaN
            end;
     NumberToString := λ n,
       match n with
       | NaN => "NaN"
       | PInf => "Infinity"
       | NInf => "-Infinity"
       | Fin q => pretty (Qfloor q)
       end;
     ObjectToString := λ _, "[object Object]" |}.

(** The updates of the specification's baseline scenarios. *)
Definition update_A : obj :=
  {[ "name" := VStr "A"; "exp" := VNum (num 100); "gold" := VNum (num 50) ]}.
Definition update_gain : obj :=
  {[ "exp" := VNum (num 150); "gold" := VNum (num 80) ]}.
Definition update_B : obj :=
  {[ "name" := VStr "B"; "exp" := VNum (num 10); "gold" := VNum (num 5) ]}.

(** ** Further runs and observations *)

Section MoreRuns.
Context `{Builtins}.

(** A sequence of [updateStatus] calls. *)
Definition updateStatuses (updates : list (option obj)) (st : State) : State :=
  foldl (λ st p, updateStatus p st) st updates.

(** The entries a sequence of [addLog] calls creates, the first with id [n]. *)
Fixpoint entries_from (n : Z) (calls : list (value * value * string))
  : list LogEntry.t :=
  match calls with
  | [] => []
  | c :: calls =>
      LogEntry.mk n c.2 c.1.1 (ToString (js_or c.1.2 (VStr "")))
      :: entries_from (n + 1) calls
  end.

(** [Math.max(0, Number(process.env.DASHBOARD_MAX_LOGS || 120))], for the
    value of the environment variable ([None] when it is not set). *)
Definition MAX_LOGS_of_env (v : option string) : number :=
  Num.max (num 0)
    (ToNumber (js_or (from_option VStr VUndefined v) (VNum (num 120)))).

End MoreRuns.

(** [state.logs.length ? state.logs[state.logs.length - 1].id : 0], the
    [lastLogId] that the API reports. *)
Definition lastLogId (st : State) : Z :=
  match last (logs st) with
  | Some e => LogEntry.id e
  | None => 0
  end.

(** The newest entry of the buffer, if any, has the id before the counter. *)
Definition last_is_newest (st : State) : Prop :=
  ∀ e, last (logs st) = Some e → LogEntry.id e = nextLogId st - 1.

(** The shape the baseline keeps: ready with finite numbers and a key, or
    not ready with everything cleared. *)
Definition baseline_sound (b : Baseline.t) : Prop :=
  if Baseline.ready b
  then (∃ g e, Baseline.gold b = Some (Fin g) ∧ Baseline.exp b = Some (Fin e))
       ∧ Baseline.key b ≠ ""
  else Baseline.gold b = None ∧ Baseline.exp b = None ∧ Baseline.key b = "".

(** An update that carries none of the properties the identity is read
    from. *)
Definition keeps_identity (p : obj) : Prop :=
  p !! "name" = None ∧ p !! "platform" = None ∧ p !! "level" = None.

(** The strategy record holds what its writers can store. *)
Definition strategy_wellformed (s : Strategy) : Prop :=
  (mode s = "normalFert" ∨ mode s = "noFert")
  ∧ (source s = "auto" ∨ source s = "manual")
  ∧ manualSeedId s ≠ NaN
  ∧ (source s = "auto" → manualSeedName s = "").

(** ** The HTTP layer *)

(** String methods of the language that the embedding does not spell out. *)
Class StringMethods : Type := {
  trim : string → string;
  toLowerCase : string → string;
}.

(** [s.startsWith(pre)]. *)
Definition startsWith (s pre : string) : bool := String.prefix pre s.

(** [s.slice(n)] for an index within the string. *)
Fixpoint slice_from (n : nat) (s : string) : string :=
  match n, s with
  | O, _ => s
  | S n, String _ s => slice_from n s
  | S _, EmptyString => ""
  end.

(** The characters [\] (code 92) and [/] (code 47). *)
Definition backslash : Ascii.ascii := Ascii.ascii_of_nat 92.
Definition slash : Ascii.ascii := Ascii.ascii_of_nat 47.

(** [s.replace(/\\/g, '/')]. *)
Fixpoint replace_backslashes (s : string) : string :=
  match s with
  | EmptyString => ""
  | String c s =>
      String (if bool_decide (c = backslash) then slash else c)
             (replace_backslashes s)
  end.

(** [v || d] for a string that may be missing ([null] or [undefined]). *)
Definition str_or (v : option string) (d : string) : string :=
  match v with
  | Some s => if bool_decide (s = "") then d else s
  | None => d
  end.

(** A request as [handleRequest] reads it: the method, the pathname and the
    query parameters of the parsed URL, and the Authorization header. *)
Module Request.
Record t : Type := mk {
  method : string;
  pathname : string;
  searchParams : gmap string string;
  authorization : option string;
}.
End Request.

(** [parsed.searchParams.get(k)]: a string or [null]. *)
Definition get_param (req : Request.t) (k : string) : value :=
  from_option VStr VNull (Request.searchParams req !! k).

(** What [readJsonBody] resolves with: the parsed JSON, an object (given by
    its properties) or a primitive value. *)
Inductive jsbody : Type :=
  | BodyObject (o : obj)
  | BodyValue (v : value).

(** [body || {}] as the argument of the update functions. *)
Definition body_or_empty (body : jsbody) : option obj :=
  match body with
  | BodyObject o => Some o
  | BodyValue v => if ToBoolean v then None else Some ∅
  end.

(** What [getPlantingRecommendation] returns, as far as it is read here. *)
Record Recommendation : Type := mkRecommendation {
  rec_level : value;
  rec_lands : value;
  candidatesNoFert : list value;
  candidatesNormalFert : list value;
  bestNoFert : value;
  bestNormalFert : value;
}.

(** The object [getCalcPayload] returns. *)
Record CalcPayload : Type := mkCalcPayload {
  calc_level : value;
  calc_lands : value;
  calc_mode : string;
  calc_best : value;
  calc_candidates : list value;
  generatedAt : number;
}.

(** The payloads [sendJson] is called with. *)
Inductive payload : Type :=
  | ErrorBody (error : string)
  | SettingsBody (settings : Settings)
  | StrategyBody (snapshot : loc)
  | StateBody (status : obj) (uptimeSec : number) (metrics : Metrics)
      (strategy : loc) (settings : Settings) (lastLogId : Z)
      (serverTime : number)
  | LogsBody (logs : list LogEntry.t) (lastLogId : Z)
  | CalcBody (calc : CalcPayload).

(** What a request ends with: a JSON response, the plain text of the
    unauthorized root page, the dashboard page, a call of [serveFile] for a
    resolved path, or an exception that leaves the handler. *)
Inductive response : Type :=
  | Json (statusCode : Z) (body : payload)
  | Text (statusCode : Z) (body : string)
  | Html (statusCode : Z)
  | ServeFile (absPath : string)
  | Uncaught (msg : string).

(** Truncation towards zero, the [ToIntegerOrInfinity] of a finite number. *)
Definition truncate (q : Qc) : Z :=
  if bool_decide (0 ≤ q)%Qc then Qfloor q else Qceiling q.

(** [l.slice(0, end)]. *)
Definition slice_to {A} (l : list A) (end_ : number) : list A :=
  match end_ with
  | NaN | NInf => []
  | PInf => l
  | Fin q =>
      let k := truncate q in
      if bool_decide (k < 0)
      then take (Z.to_nat (Z.of_nat (length l) + k)) l
      else take (Z.to_nat k) l
  end.

Section Http.
Context `{Builtins} `{StringMethods}.
(** [process.env.DASHBOARD_TOKEN || '']. *)
Variable DASHBOARD_TOKEN : string.
(** [path.resolve(FARM_CALC_ROOT, rel)] and [path.resolve(FARM_CALC_ROOT)]. *)
Variable resolve_in_root : string → string.
Variable resolved_root : string.
Variable getLevelExpProgress : number → number → Progress.
(** [getPlantingRecommendation(level, lands, { top })], which may throw. *)
Variable getPlantingRecommendation : number → number → number → outcome Recommendation.

Definition getRequestToken (req : Request.t) : string :=
  let fromQuery := str_or (Request.searchParams req !! "token") "" in
  if nonempty fromQuery then fromQuery
  else
    let auth := str_or (Request.authorization req) "" in
    if startsWith auth "Bearer " then trim (slice_from 7 auth) else "".

(** [None] when the request may proceed, else the response that was sent. *)
Definition ensureAuthorized (req : Request.t) : option response :=
  if negb (nonempty DASHBOARD_TOKEN) then None
  else if bool_decide (getRequestToken req = DASHBOARD_TOKEN) then None
  else if bool_decide (Request.pathname req = "/")
  then Some (Text 401 "Dashboard token required. Use ?token=YOUR_TOKEN")
  else Some (Json 401 (ErrorBody "Unauthorized")).

Definition resolveFarmCalcFile (requestPath : string) : option string :=
  if negb (startsWith requestPath "/calc") then None
  else
    let relRaw :=
      if bool_decide (requestPath = "/calc") || bool_decide (requestPath = "/calc/")
      then "/index.html"
      else slice_from 5 requestPath in
    let relSafe := replace_backslashes relRaw in
    let abs := resolve_in_root ("." +:+ relSafe) in
    if negb (startsWith abs resolved_root) then None else Some abs.

Definition getCalcPayload (level lands : number) (mode : string) (top now : number)
  : outcome CalcPayload :=
  match getPlantingRecommendation level lands top with
  | Thrown msg => Thrown msg
  | Returned rec =>
      let noFert := bool_decide (mode = "noFert") in
      let candidates :=
        if noFert then candidatesNoFert rec else candidatesNormalFert rec in
      let best := if noFert then bestNoFert rec else bestNormalFert rec in
      Returned {| calc_level := rec_level rec;
                  calc_lands := rec_lands rec;
                  calc_mode := mode;
                  calc_best := best;
                  calc_candidates := slice_to candidates top;
                  generatedAt := now |}
  end.

(** [Math.max(1, Math.min(50, Number(get('top') || 10)))]. *)
Definition requested_top (req : Request.t) : number :=
  Num.max (num 1)
    (Num.min (num 50) (ToNumber (js_or (get_param req "top") (VNum (num 10))))).

(** The handling of one request on the store and the shared configuration.
    For the two POST routes the body is what [readJsonBody] settled with,
    and the handler's continuation runs on the store as it is then; [now]
    is the time the uptime is taken at and [serverTime] the one reported. *)
Definition handleRequest (req : Request.t) (body : outcome jsbody)
    (now serverTime : number) (st : State) (cfg : Config)
  : response * State * Config :=
  match ensureAuthorized req with
  | Some denied => (denied, st, cfg)
  | None =>
      let path := Request.pathname req in
      let method := Request.method req in
      if startsWith path "/calc" then
        match resolveFarmCalcFile path with
        | None => (Json 404 (ErrorBody "Not Found"), st, cfg)
        | Some target => (ServeFile target, st, cfg)
        end
      else if bool_decide (path = "/") then (Html 200, st, cfg)
      else if bool_decide (path = "/api/state") then
        let uptimeSec :=
          Num.floor (Num.div (Num.sub now (startedAt st)) (num 1000)) in
        let metrics := buildMetrics getLevelExpProgress uptimeSec st in
        let '(snapshot, st') := getStrategyConfig st in
        match getRuntimeSettings cfg with
        | (Returned settings, cfg') =>
            (Json 200 (StateBody (status st) uptimeSec metrics snapshot settings
                                 (lastLogId st) serverTime), st', cfg')
        | (Thrown msg, cfg') => (Uncaught msg, st', cfg')
        end
      else if bool_decide (path = "/api/settings") && bool_decide (method = "GET") then
        match getRuntimeSettings cfg with
        | (Returned settings, cfg') => (Json 200 (SettingsBody settings), st, cfg')
        | (Thrown msg, cfg') => (Uncaught msg, st, cfg')
        end
      else if bool_decide (path = "/api/settings") && bool_decide (method = "POST") then
        match body with
        | Returned b =>
            match updateRuntimeSettings (body_or_empty b) cfg with
            | (Returned settings, cfg') => (Json 200 (SettingsBody settings), st, cfg')
            | (Thrown msg, cfg') =>
                (Json 400 (ErrorBody (str_or (Some msg) "invalid_json")), st, cfg')
            end
        | Thrown msg =>
            (Json 400 (ErrorBody (str_or (Some msg) "invalid_json")), st, cfg)
        end
      else if bool_decide (path = "/api/calc") then
        let level :=
          ToNumber (js_or (get_param req "level")
                          (js_or (prop (status st) "level") (VNum (num 1)))) in
        let lands := ToNumber (js_or (get_param req "lands") (VNum (num 18))) in
        let mode :=
          if bool_decide (Request.searchParams req !! "mode" = Some "noFert")
          then "noFert" else "normalFert" in
        match getCalcPayload level lands mode (requested_top req) now with
        | Returned calc => (Json 200 (CalcBody calc), st, cfg)
        | Thrown msg => (Json 500 (ErrorBody (str_or (Some msg) "calc_failed")), st, cfg)
        end
      else if bool_decide (path = "/api/strategy") && bool_decide (method = "GET") then
        let '(snapshot, st') := getStrategyConfig st in
        (Json 200 (StrategyBody snapshot), st', cfg)
      else if bool_decide (path = "/api/strategy") && bool_decide (method = "POST") then
        match body with
        | Returned b =>
            let '(snapshot, st') := updateStrategyConfig (body_or_empty b) now st in
            (Json 200 (StrategyBody snapshot), st', cfg)
        | Thrown _ => (Json 400 (ErrorBody "invalid_json"), st, cfg)
        end
      else if bool_decide (path = "/api/logs") then
        let since := ToNumber (js_or (get_param req "since") (VNum (num 0))) in
        (Json 200 (LogsBody (getLogsSince since st) (lastLogId st)), st, cfg)
      else (Json 404 (ErrorBody "Not Found"), st, cfg)
  end.

End Http.

(** What no request changes: the status, the baseline, the log and the
    objects that exist. *)
Definition telemetry_kept (st st' : State) : Prop :=
  startedAt st' = startedAt st ∧ status st' = status st
  ∧ baseline st' = baseline st ∧ logs st' = logs st
  ∧ nextLogId st' = nextLogId st
  ∧ ∀ l, is_Some (heap st !! l) → heap st' !! l = heap st !! l.

(** ** The launcher *)

Section Launcher.
Context `{StringMethods}.
(** [path.join(__dirname, 'client.js')]. *)
Variable clientPath : string.

(** [args.includes(name)]. *)
Definition hasArg (args : list string) (name : string) : bool :=
  bool_decide (name ∈ args).

Definition toBool (value : string) : bool :=
  bool_decide (value = "1") || bool_decide (value = "true").

(** The constants [isWx], [qrLogin] and [code] of [buildArgs], for the
    environment given as the map of its variables. *)
Definition launch_isWx (env : gmap string string) : bool :=
  bool_decide (toLowerCase (str_or (env !! "PLATFORM") "qq") = "wx")
  || toBool (str_or (env !! "WX") "").

Definition launch_qrLogin (env : gmap string string) : bool :=
  toBool (str_or (env !! "QR_LOGIN") "").

Definition launch_code (env : gmap string string) : string :=
  if launch_isWx env
  then str_or (env !! "WX_CODE") (str_or (env !! "CODE") "")
  else str_or (env !! "QQ_CODE") (str_or (env !! "CODE") "").

(** [buildArgs()], for [process.argv.slice(2)] and the environment. *)
Definition buildArgs (userArgs : list string) (env : gmap string string)
  : list string :=
  let args := [clientPath] in
  if bool_decide (0 < length userArgs)%nat then args ++ userArgs
  else
    let isWx := launch_isWx env in
    let qrLogin := launch_qrLogin env in
    let args := if isWx then args ++ ["--wx"] else args in
    let args := if qrLogin && negb isWx then args ++ ["--qr"] else args in
    let code := launch_code env in
    let args := if nonempty code then args ++ ["--code"; code] else args in
    let farm := str_or (env !! "FARM_INTERVAL") "" in
    let args := if nonempty farm then args ++ ["--interval"; farm] else args in
    let friend := str_or (env !! "FRIEND_INTERVAL") "" in
    if nonempty friend then args ++ ["--friend-interval"; friend] else args.

(** [validateArgs(args)]: [Some 1] when it ends the process with
    [process.exit(1)], [None] when it returns. *)
Definition validateArgs (args : list string) : option Z :=
  let hasCode := hasArg args "--code" in
  let hasQr := hasArg args "--qr" in
  let isToolMode := hasArg args "--decode" || hasArg args "--verify" in
  if negb hasCode && negb hasQr && negb isToolMode then Some 1 else None.

End Launcher.

(** The arguments that let [validateArgs] pass. *)
Definition launch_flags : list string := ["--code"; "--qr"; "--decode"; "--verify"].

(** String methods for closed examples on ASCII text: letters to lower case,
    and blanks (space, tab, line feed, vertical tab, form feed, carriage
    return) removed at both ends. *)
Definition ascii_lower (c : Ascii.ascii) : Ascii.ascii :=
  let n := Ascii.nat_of_ascii c in
  if bool_decide (65 ≤ n ≤ 90)%nat then Ascii.ascii_of_nat (n + 32) else c.

Fixpoint string_lower (s : string) : string :=
  match s with
  | EmptyString => ""
  | String c s => String (ascii_lower c) (string_lower s)
  end.

Definition ascii_blank (c : Ascii.ascii) : bool :=
  let n := Ascii.nat_of_ascii c in
  bool_decide (9 ≤ n ≤ 13)%nat || bool_decide (n = 32%nat).

Fixpoint trim_start (s : string) : string :=
  match s with
  | EmptyString => ""
  | String c s' => if ascii_blank c then trim_start s' else s
  end.

Definition string_trim (s : string) : string :=
  String.rev (trim_start (String.rev (trim_start s))).

Definition ascii_methods : StringMethods :=
  {| trim := string_trim; toLowerCase := string_lower |}.

(** * Properties *)

(** ** Facts about numbers *)

Module NumFacts.

Lemma ltb_num a b : Num.ltb (num a) (num b) = bool_decide (a < b).
Proof.
  unfold Num.ltb, num. apply bool_decide_ext. symmetry. apply Z2Qc_inj_lt.
Qed.

Lemma leb_num a b : Num.leb (num a) (num b) = bool_decide (a ≤ b).
Proof.
  unfold Num.leb, num. apply bool_decide_ext. symmetry. apply Z2Qc_inj_le.
Qed.

Lemma ltb_leb_false x y : Num.ltb x y = true → Num.leb y x = false.
Proof.
  destruct x as [| | |a], y as [| | |b]; simpl; try done.
  rewrite bool_decide_eq_true, bool_decide_eq_false. apply Qclt_not_le.
Qed.

Lemma leb_ltb_false x y : Num.leb x y = true → Num.ltb y x = false.
Proof.
  destruct x as [| | |a], y as [| | |b]; simpl; try done.
  rewrite bool_decide_eq_true, bool_decide_eq_false. apply Qcle_not_lt.
Qed.

Lemma max_num a b : Num.max (num a) (num b) = num (Z.max a b).
Proof.
  unfold Num.max, num; simpl.
  case_bool_decide as Hlt; do 2 f_equal.
  - apply Z2Qc_inj_lt in Hlt. lia.
  - rewrite <-Z2Qc_inj_lt in Hlt. lia.
Qed.

Lemma mul_num a b : Num.mul (num a) (num b) = num (a * b).
Proof. unfold num; simpl. by rewrite Z2Qc_inj_mul. Qed.

Lemma truthy_num a : Num.truthy (num a) = bool_decide (a ≠ 0).
Proof.
  unfold num; simpl. rewrite <-Z2Qc_inj_0.
  case_bool_decide as Hq; case_bool_decide as Ha; simpl; try done.
  - by apply Z2Qc_inj in Hq.
  - destruct Hq. f_equal. by destruct (decide (a = 0)).
Qed.

Lemma floor_num z : Num.floor (num z) = num z.
Proof. unfold Num.floor, num. do 2 f_equal. apply Qfloor_Z. Qed.

Lemma round_num z : Num.round (num z) = num z.
Proof.
  unfold Num.round, num. do 2 f_equal.
  rewrite (Qfloor_comp _ (inject_Z z + (1 # 2))%Q).
  - unfold Qfloor, Qplus, inject_Z; simpl.
    rewrite Z.mul_1_r.
    replace (z * 2 + 1) with (1 + z * 2) by lia.
    rewrite Z.div_add by lia. done.
  - simpl. rewrite !Qred_correct. done.
Qed.

Lemma div_num_exact a b : b ≠ 0 → Num.div (num (a * b)) (num b) = num a.
Proof.
  intros Hb. unfold num; simpl.
  rewrite <-Z2Qc_inj_0. rewrite bool_decide_eq_false_2 by (by intros ?%Z2Qc_inj).
  f_equal. rewrite Z2Qc_inj_mul. unfold Qcdiv. rewrite <-Qcmult_assoc, Qcmult_inv_r.
  - by rewrite Qcmult_1_r.
  - rewrite <-Z2Qc_inj_0. by intros ?%Z2Qc_inj.
Qed.

Lemma or_is_zero x d : Num.is_zero d = false → Num.is_zero (Num.or x d) = false.
Proof.
  intros Hd. unfold Num.or. destruct x as [| | |q]; simpl; try done.
  case_bool_decide; simpl; [done|]. by apply bool_decide_eq_false.
Qed.

Lemma or_not_NaN x d : d ≠ NaN → Num.or x d ≠ NaN.
Proof. intros Hd. unfold Num.or. by destruct x; simpl; try case_bool_decide. Qed.

End NumFacts.

(** ** Status updates and the baseline *)

Section StatusProperties.
Context `{Builtins}.

Lemma finite_or_zero_spec v :
  finite_or_zero v = match v with VNum (Fin q) => Fin q | _ => num 0 end.
Proof. by destruct v as [| | |[]| |]. Qed.

Lemma Number_isFinite_assign (prev p : obj) k :
  Number_isFinite (prop p k) = true →
  prop (Object_assign prev p) k = prop p k.
Proof.
  unfold prop, Object_assign. destruct (p !! k) as [v|] eqn:Hk; [|done].
  intros _. by rewrite (lookup_union_Some_l _ _ _ _ Hk).
Qed.

Lemma anchor_ready prev s b :
  Baseline.ready b = false →
  Baseline.ready (anchor prev s b) = anchors prev s b.
Proof. intros Hb. unfold anchor. by destruct (anchors prev s b). Qed.

(** C1, as the code has it: with the baseline not ready once a stale one has
    been cleared, and the merged snapshot login-ready, [updateStatus] anchors
    a baseline exactly when the identity (name or platform) just changed or
    the merged snapshot holds a finite exp or gold, whether the update
    carried it or an earlier one did; an update that carries a finite exp or
    gold therefore always anchors. The anchored gold and exp are those of the
    merged snapshot, 0 where it is not a finite number, the key is the
    current identity key, and otherwise the baseline is left as it was. *)
Theorem updateStatus_anchor_condition (st : State) (p : obj) :
  let s := Object_assign (status st) p in
  let b := invalidate s (baseline st) in
  let b' := baseline (updateStatus (Some p) st) in
  Baseline.ready b = false →
  loginReady s = true →
  (Baseline.ready b' = true ↔
     identityChanged (status st) s = true
     ∨ Number_isFinite (prop s "exp") = true
     ∨ Number_isFinite (prop s "gold") = true)
  ∧ (Number_isFinite (prop p "exp") = true ∨ Number_isFinite (prop p "gold") = true →
     Baseline.ready b' = true)
  ∧ (Baseline.ready b' = true →
     b' = Baseline.mk
            (Some (match prop s "gold" with VNum (Fin q) => Fin q | _ => num 0 end))
            (Some (match prop s "exp" with VNum (Fin q) => Fin q | _ => num 0 end))
            true (identityKey s))
  ∧ (Baseline.ready b' = false → b' = b).
Proof.
  intros s b b' Hb Hlogin.
  assert (Hb' : b' = anchor (status st) s b) by done.
  clearbody b'. subst b'.
  rewrite anchor_ready by done.
  assert (Hiff : anchors (status st) s b = true ↔
     identityChanged (status st) s = true
     ∨ Number_isFinite (prop s "exp") = true
     ∨ Number_isFinite (prop s "gold") = true).
  { unfold anchors. rewrite Hb, Hlogin. simpl.
    rewrite !orb_true_iff. tauto. }
  split; [done|]. split; [|split].
  - intros Hp. apply Hiff. right.
    destruct Hp as [Hp|Hp]; [left|right];
      subst s; by rewrite Number_isFinite_assign.
  - intros Ha. unfold anchor. rewrite Ha.
    by rewrite !finite_or_zero_spec.
  - intros Ha. unfold anchor. by rewrite Ha.
Qed.

Section Scenarios.
Variable now uptimeSec : number.
Variable getLevelExpProgress : number → number → Progress.

Let s1 := updateStatus (Some update_A) (initial_state now).
Let s2 := updateStatus (Some update_gain) s1.
Let s3 := updateStatus (Some update_B) s2.

(** C2: from the initial state, [updateStatus({name:"A", exp:100, gold:50})]
    anchors the baseline at exp 100 and gold 50, a following
    [updateStatus({exp:150, gold:80})] leaves it unchanged, and [buildMetrics]
    then reports expGain = 50 and goldGain = 30, whatever the uptime and the
    level curve. *)
Theorem baseline_anchoring_scenario :
  baseline (initial_state now) = Baseline.mk None None false ""
  ∧ baseline s1 = Baseline.mk (Some (num 50)) (Some (num 100)) true "qq:A"
  ∧ baseline s2 = baseline s1
  ∧ expGain (buildMetrics getLevelExpProgress uptimeSec s2) = num 50
  ∧ goldGain (buildMetrics getLevelExpProgress uptimeSec s2) = num 30.
Proof. compute_done. Qed.

(** C3: after the two updates of the anchoring scenario, the one call
    [updateStatus({name:"B", exp:10, gold:5})] finds the identity key "qq:B"
    different from the baseline key "qq:A", clears the baseline, and anchors
    a new one at exp 10 and gold 5 with key "qq:B"; [buildMetrics] right after
    reports expGain = 0 (and goldGain = 0). *)
Theorem identity_rotation_scenario :
  let s := Object_assign (status s2) update_B in
  Baseline.key (baseline s2) = "qq:A"
  ∧ identityKey s = "qq:B"
  ∧ invalidate s (baseline s2) = Baseline.mk None None false ""
  ∧ baseline s3 = Baseline.mk (Some (num 5)) (Some (num 10)) true "qq:B"
  ∧ expGain (buildMetrics getLevelExpProgress uptimeSec s3) = num 0
  ∧ goldGain (buildMetrics getLevelExpProgress uptimeSec s3) = num 0.
Proof. intros s. compute_done. Qed.

End Scenarios.
End StatusProperties.

(** ** The log *)

Section LogProperties.
Context `{Builtins}.
Implicit Types (MAX_LOGS : number) (st : State).

Lemma addLog_disabled MAX_LOGS level message nowIso st :
  Num.leb MAX_LOGS (num 0) = true → addLog MAX_LOGS level message nowIso st = st.
Proof. intros Hle. unfold addLog. by rewrite Hle. Qed.

Lemma addLog_nextLogId MAX_LOGS level message nowIso st :
  Num.leb MAX_LOGS (num 0) = false →
  nextLogId (addLog MAX_LOGS level message nowIso st) = nextLogId st + 1.
Proof. intros Hle. unfold addLog. by rewrite Hle. Qed.

Lemma shift_ids_ordered (l : list LogEntry.t) n :
  StronglySorted Z.lt (LogEntry.id <$> l) ∧ Forall (λ e, 1 ≤ LogEntry.id e < n) l →
  StronglySorted Z.lt (LogEntry.id <$> shift l)
  ∧ Forall (λ e, 1 ≤ LogEntry.id e < n) (shift l).
Proof.
  intros [Hsorted Hrange]. split; [|by apply Forall_tail].
  destruct l as [|e l]; [done|]. simpl in *.
  by apply StronglySorted_cons in Hsorted as [_ ?].
Qed.

Lemma addLog_ids_ordered MAX_LOGS level message nowIso st :
  ids_ordered st → ids_ordered (addLog MAX_LOGS level message nowIso st).
Proof.
  intros (Hnext & Hsorted & Hrange). unfold addLog.
  destruct (Num.leb MAX_LOGS (num 0)); [done|].
  set (item := new_entry level message nowIso st).
  assert (Hpushed : StronglySorted Z.lt (LogEntry.id <$> logs st ++ [item])
                    ∧ Forall (λ e, 1 ≤ LogEntry.id e < nextLogId st + 1)
                             (logs st ++ [item])).
  { split.
    - rewrite fmap_app. apply StronglySorted_app_2; [|done|repeat constructor].
      intros x1 x2 (e & -> & He)%list_elem_of_fmap ->%list_elem_of_singleton.
      rewrite Forall_forall in Hrange. apply Hrange in He. simpl. lia.
    - apply Forall_app. split.
      + eapply Forall_impl; [done|]. simpl. lia.
      + repeat constructor; simpl; lia. }
  split; [simpl; lia|]. simpl.
  destruct (Num.gtb _ MAX_LOGS); [by apply shift_ids_ordered|done].
Qed.

Lemma addLogs_ids_ordered MAX_LOGS calls st :
  ids_ordered st → ids_ordered (addLogs MAX_LOGS calls st).
Proof.
  revert st. induction calls as [|c calls IH]; intros st Hst; [done|].
  simpl. apply IH. by apply addLog_ids_ordered.
Qed.

Lemma addLogs_nextLogId MAX_LOGS calls st :
  Num.leb MAX_LOGS (num 0) = false →
  nextLogId (addLogs MAX_LOGS calls st) = nextLogId st + Z.of_nat (length calls).
Proof.
  intros Hle. revert st. induction calls as [|c calls IH]; intros st.
  - simpl. lia.
  - change (addLogs MAX_LOGS (c :: calls) st)
      with (addLogs MAX_LOGS calls (addLog MAX_LOGS c.1.1 c.1.2 c.2 st)).
    rewrite IH, addLog_nextLogId by done. simpl length. lia.
Qed.

Lemma initial_ids_ordered now : ids_ordered (initial_state now).
Proof. repeat split; simpl; [lia|constructor|constructor]. Qed.

(** C4: with capacity 3, five appends to the empty buffer leave the entries
    of the last three calls, with ids 3, 4, 5 in that order, and
    [getLogsSince(3)] returns the two entries with a greater id; for a finite
    positive id, [getLogsSince] returns the entries of the buffer with a
    greater id, in order. Whatever the capacity (unless it is 0 or less), the
    n-th call of [addLog] gives its entry the id n, so ids start at 1, grow by
    one per call and are never used twice, and the ids in the buffer increase
    strictly. With capacity 0 [addLog] changes nothing. *)
Theorem log_ring_buffer :
  (∀ now (c1 c2 c3 c4 c5 : value * value * string),
     let entry (n : Z) (c : value * value * string) :=
       LogEntry.mk n c.2 c.1.1 (ToString (js_or c.1.2 (VStr ""))) in
     let st := addLogs (num 3) [c1; c2; c3; c4; c5] (initial_state now) in
     logs st = [entry 3 c3; entry 4 c4; entry 5 c5]
     ∧ getLogsSince (num 3) st = [entry 4 c4; entry 5 c5])
  ∧ (∀ sinceId st,
       Num.isFinite sinceId = true → Num.gtb sinceId (num 0) = true →
       getLogsSince sinceId st
       = filter (λ e, Num.gtb (num (LogEntry.id e)) sinceId = true) (logs st))
  ∧ (∀ MAX_LOGS now calls level message nowIso,
       Num.leb MAX_LOGS (num 0) = false →
       let st := addLogs MAX_LOGS calls (initial_state now) in
       LogEntry.id (new_entry level message nowIso st)
       = Z.of_nat (length calls) + 1
       ∧ nextLogId (addLog MAX_LOGS level message nowIso st)
         = LogEntry.id (new_entry level message nowIso st) + 1
       ∧ StronglySorted Z.lt (LogEntry.id <$> logs st)
       ∧ Forall (λ e, 1 ≤ LogEntry.id e ≤ Z.of_nat (length calls)) (logs st))
  ∧ (∀ level message nowIso st, addLog (num 0) level message nowIso st = st).
Proof.
  split; [|split; [|split]].
  - intros now c1 c2 c3 c4 c5 entry st. by vm_compute.
  - intros sinceId st Hfin Hpos. unfold getLogsSince.
    rewrite Hfin. by rewrite (NumFacts.ltb_leb_false _ _ Hpos).
  - intros MAX_LOGS now calls level message nowIso Hle st.
    pose proof (addLogs_nextLogId MAX_LOGS calls (initial_state now) Hle) as Hn.
    pose proof (addLogs_ids_ordered MAX_LOGS calls _ (initial_ids_ordered now))
      as (_ & Hsorted & Hrange).
    fold st in Hn, Hsorted, Hrange. simpl in Hn.
    split; [simpl; lia|]. split; [by rewrite addLog_nextLogId|].
    split; [done|]. eapply Forall_impl; [done|]. simpl. lia.
  - intros. by apply addLog_disabled.
Qed.

End LogProperties.

(** ** Metrics *)

Section MetricsProperties.
Context `{Builtins}.
Variable getLevelExpProgress : number → number → Progress.



End MetricsProperties.

(** ** The strategy store *)

Section StrategyProperties.
Context `{Builtins}.
Implicit Types (s : Strategy) (st : State) (p : obj).

Lemma strategy_getStrategyConfig st :
  strategy (getStrategyConfig st).2 = strategy st.
Proof. done. Qed.

Lemma strategy_updateStrategyConfig p now st :
  strategy (updateStrategyConfig (Some p) now st).2
  = patch_strategy p now (strategy st).
Proof. done. Qed.

Lemma strategy_updateStrategyConfig_None now st :
  strategy (updateStrategyConfig None now st).2 = strategy st.
Proof. done. Qed.

Lemma apply_mode_fields p s :
  manualSeedId (apply_mode p s) = manualSeedId s
  ∧ manualSeedName (apply_mode p s) = manualSeedName s
  ∧ source (apply_mode p s) = source s.
Proof.
  unfold apply_mode. destruct (prop p "mode"); try done.
  by destruct (_ || _).
Qed.

Lemma patch_strategy_lastDecision p now s :
  lastDecision (patch_strategy p now s) = lastDecision s.
Proof.
  unfold patch_strategy, apply_manualSeedId, apply_clearManual, apply_mode.
  simpl. repeat (case_match; simpl; try done).
Qed.

(** The manual part of the record after a patch, by the branches taken. *)
Lemma patch_strategy_manual p now s :
  let s' := patch_strategy p now s in
  let cleared := ToBoolean (prop p "clearManual") in
  let given := negb (strict_eq (prop p "manualSeedId") VUndefined) in
  let positive := Num.gtb (patch_sid p) (num 0) in
  manualSeedId s' = (if given then patch_sid p
                     else if cleared then num 0 else manualSeedId s)
  ∧ source s' = (if given && positive then "manual"
                 else if cleared then "auto" else source s)
  ∧ manualSeedName s'
    = (if given && positive
       then ToString (js_or (prop p "manualSeedName")
                            (js_or (VStr (if cleared then "" else manualSeedName s))
                                   (VStr "")))
       else if cleared then "" else manualSeedName s).
Proof.
  intros s' cleared given positive. subst s'.
  destruct (apply_mode_fields p s) as (Hid & Hname & Hsrc).
  unfold patch_strategy, apply_manualSeedId, apply_clearManual.
  fold cleared given positive.
  destruct given, cleared, positive; simpl; by rewrite ?Hid, ?Hname, ?Hsrc.
Qed.

Lemma patch_sid_not_given p :
  strict_eq (prop p "manualSeedId") VUndefined = true → patch_sid p = num 0.
Proof.
  unfold patch_sid. destruct (prop p "manualSeedId") as [| | |n| |]; try done.
Qed.

Lemma gtb_zero_false : Num.gtb (num 0) (num 0) = false.
Proof. done. Qed.

(** A number that is neither above nor below zero, and that [|| 0] has
    cleaned of NaN, is zero. *)
Lemma patch_sid_zero p :
  Num.gtb (patch_sid p) (num 0) = false →
  Num.ltb (patch_sid p) (num 0) = false →
  patch_sid p = num 0.
Proof.
  unfold patch_sid, Num.or.
  destruct (ToNumber (prop p "manualSeedId")) as [| | |q]; simpl; try done.
  case_bool_decide as Hq; simpl; [done|].
  rewrite !bool_decide_eq_false. intros Hgt Hlt. exfalso. apply Hq.
  apply Qcle_antisym; by apply Qcnot_lt_le.
Qed.

Lemma patch_strategy_consistent p now s :
  manual_consistent s → manual_consistent (patch_strategy p now s).
Proof.
  unfold manual_consistent.
  destruct (patch_strategy_manual p now s) as (-> & -> & _).
  destruct (negb (strict_eq _ _)); cbn [andb].
  - by destruct (Num.gtb (patch_sid p) (num 0)).
  - destruct (ToBoolean _); [|done]. by rewrite gtb_zero_false.
Qed.

Lemma strategy_step_consistent st st' :
  strategy_step st st' →
  manual_consistent (strategy st) → manual_consistent (strategy st').
Proof.
  destruct 1 as [[p|] now st|decision now st]; [|done..].
  rewrite strategy_updateStrategyConfig. apply patch_strategy_consistent.
Qed.

Lemma reachable_consistent st : reachable st → manual_consistent (strategy st).
Proof.
  intros [now Hrtc]. revert st Hrtc.
  apply (rtc_ind_r (λ st, manual_consistent (strategy st))).
  - intros Hgt. by vm_compute in Hgt.
  - eauto using strategy_step_consistent.
Qed.

(** C5, as the code has it: in every state the strategy store reaches from
    its initial configuration through [updateStrategyConfig] and
    [recordStrategyDecision], manualSeedId > 0 implies source = "manual". A
    patch with clearManual truthy and no positive manualSeedId leaves
    manualSeedName = "" and source = "auto", and manualSeedId equal to
    [Number(patch.manualSeedId) || 0]: that is 0, unless the patch carries a
    negative manualSeedId, which is stored as given. *)
Theorem manual_seed_invariant :
  (∀ st, reachable st →
     Num.gtb (manualSeedId (strategy st)) (num 0) = true →
     source (strategy st) = "manual")
  ∧ (∀ st p now,
       ToBoolean (prop p "clearManual") = true →
       Num.gtb (patch_sid p) (num 0) = false →
       let s' := strategy (updateStrategyConfig (Some p) now st).2 in
       manualSeedName s' = "" ∧ source s' = "auto"
       ∧ manualSeedId s' = patch_sid p
       ∧ (Num.ltb (patch_sid p) (num 0) = false → manualSeedId s' = num 0)).
Proof.
  split; [apply reachable_consistent|].
  intros st p now Hclear Hpos s'. subst s'.
  rewrite strategy_updateStrategyConfig.
  destruct (patch_strategy_manual p now (strategy st)) as (Hid & Hsrc & Hname).
  rewrite Hclear, Hpos, andb_false_r in *.
  assert (Hsid : manualSeedId (patch_strategy p now (strategy st)) = patch_sid p).
  { rewrite Hid. destruct (strict_eq _ _) eqn:Hgiven; simpl; [|done].
    by rewrite patch_sid_not_given. }
  repeat split; [done..|].
  intros Hneg. rewrite Hsid. by apply patch_sid_zero.
Qed.


End StrategyProperties.

(** ** Snapshots of the strategy and the objects they share *)

Section SnapshotProperties.
Implicit Types (st : State) (o : obj) (l r : loc).

Lemma alloc_lookup_new o st : heap (alloc o st).2 !! (alloc o st).1 = Some o.
Proof. simpl. apply lookup_insert_eq. Qed.

Lemma alloc_lookup_old o st l :
  is_Some (heap st !! l) → heap (alloc o st).2 !! l = heap st !! l.
Proof.
  intros Hl. simpl. apply lookup_insert_ne. intros <-.
  apply elem_of_dom in Hl. by apply is_fresh in Hl.
Qed.

Lemma alloc_not_old o st l : is_Some (heap st !! l) → (alloc o st).1 ≠ l.
Proof.
  intros Hl <-. apply elem_of_dom in Hl. by apply is_fresh in Hl.
Qed.

Lemma strategy_view_alloc o st :
  heap_closed st → strategy_view (alloc o st).2 = strategy_view st.
Proof.
  intros Hclosed. unfold strategy_view. f_equal.
  change (strategy (alloc o st).2) with (strategy st).
  destruct (lastDecision (strategy st)) as [l|] eqn:Hl; [|done].
  simpl. apply (alloc_lookup_old o). by apply Hclosed.
Qed.

Lemma strategy_view_set_prop r k v st :
  lastDecision (strategy st) ≠ Some r →
  strategy_view (set_prop r k v st) = strategy_view st.
Proof.
  intros Hr. unfold strategy_view, set_prop. simpl. f_equal.
  destruct (lastDecision (strategy st)) as [l|]; [|done]. simpl.
  apply lookup_alter_ne. congruence.
Qed.

Lemma strategy_view_set_props r writes st :
  lastDecision (strategy st) ≠ Some r →
  strategy_view (set_props r writes st) = strategy_view st.
Proof.
  revert st. induction writes as [|w writes IH]; intros st Hr; [done|].
  change (set_props r (w :: writes) st)
    with (set_props r writes (set_prop r w.1 w.2 st)).
  rewrite IH by done. by apply strategy_view_set_prop.
Qed.

Lemma heap_closed_alloc o st : heap_closed st → heap_closed (alloc o st).2.
Proof.
  intros Hclosed l Hl. rewrite alloc_lookup_old; by apply Hclosed.
Qed.

(** C8, as the code has it: [getStrategyConfig] returns a new object with a
    copy of the six fields, so writing properties of the returned object
    leaves the strategy record of the store and its decision object as they
    were. The copy is shallow: the lastDecision field of the returned object
    is the store's own reference. *)
Theorem getStrategyConfig_shallow_snapshot (st : State)
    (writes : list (string * value)) :
  heap_closed st →
  let r := (getStrategyConfig st).1 in
  let st' := (getStrategyConfig st).2 in
  heap st' !! r = Some (strategy_snapshot (strategy st))
  ∧ prop (strategy_snapshot (strategy st)) "lastDecision"
    = ref_or_null (lastDecision (strategy st))
  ∧ strategy_view st' = strategy_view st
  ∧ strategy_view (set_props r writes st') = strategy_view st.
Proof.
  intros Hclosed r st'. split; [apply alloc_lookup_new|]. split; [done|].
  assert (Hview : strategy_view st' = strategy_view st)
    by (by apply strategy_view_alloc).
  split; [done|]. rewrite strategy_view_set_props; [done|].
  change (strategy st') with (strategy st). intros Hl.
  apply (alloc_not_old (strategy_snapshot (strategy st)) st r);
    [by apply Hclosed|done].
Qed.

Context `{Builtins}.

Lemma strategy_step_heap_closed st st' :
  strategy_step st st' → heap_closed st → heap_closed st'.
Proof.
  destruct 1 as [[p|] now st|decision now st]; intros Hclosed.
  - apply heap_closed_alloc. intros l.
    change (lastDecision (patch_strategy p now (strategy st)) = Some l →
            is_Some (heap st !! l)).
    rewrite patch_strategy_lastDecision. apply Hclosed.
  - by apply heap_closed_alloc.
  - intros l [= <-]. unfold recordStrategyDecision. simpl.
    rewrite lookup_insert_eq. eauto.
Qed.

Lemma reachable_heap_closed st : reachable st → heap_closed st.
Proof.
  intros [now Hrtc]. revert st Hrtc. apply (rtc_ind_r heap_closed).
  - by intros l.
  - eauto using strategy_step_heap_closed.
Qed.

End SnapshotProperties.

(** ** Runtime settings *)

Section SettingsProperties.
Context `{Builtins}.

Lemma interval_sec_whole ms : whole_seconds (interval_sec ms).
Proof.
  assert (Hone : whole_seconds (num 1)) by (right; exists 1; split; [lia|done]).
  destruct ms as [| | |q].
  - by replace (interval_sec NaN) with (num 1) by compute_done.
  - left. compute_done.
  - by replace (interval_sec NInf) with (num 1) by compute_done.
  - unfold interval_sec, Num.or, Num.truthy.
    case_bool_decide as Hq; cbn [negb].
    + by replace (Num.max _ _) with (num 1) by compute_done.
    + right. unfold Num.div.
      rewrite bool_decide_eq_false_2 by done.
      unfold Num.round. eexists. split; [|apply NumFacts.max_num]. lia.
Qed.

Lemma interval_sec_stored x :
  whole_seconds x → interval_sec (Num.mul x (num 1000)) = x.
Proof.
  intros [->|(z & Hz & ->)]; [compute_done|].
  rewrite NumFacts.mul_num. unfold interval_sec, Num.or.
  rewrite NumFacts.truthy_num, bool_decide_eq_true_2 by lia.
  rewrite NumFacts.div_num_exact, NumFacts.round_num, NumFacts.max_num by lia.
  f_equal. lia.
Qed.

Lemma valid_interval_floor n :
  invalid_interval n = false →
  ∃ q, n = Fin q ∧ (0 < q)%Qc
       ∧ Num.max (num 1) (Num.floor n) = num (Z.max 1 (Qfloor q)).
Proof.
  unfold invalid_interval. destruct n as [| | |q]; simpl; try done.
  rewrite bool_decide_eq_false. intros Hq%Qcnot_le_lt.
  exists q. split; [done|]. split; [done|]. apply NumFacts.max_num.
Qed.

Lemma checked_interval_whole n :
  invalid_interval n = false → whole_seconds (Num.max (num 1) (Num.floor n)).
Proof.
  intros (q & _ & _ & ->)%valid_interval_floor. right. eexists. split; [|done]. lia.
Qed.

(** What [updateRuntimeSettings] does, by the checks it makes in order. *)
Lemma updateRuntimeSettings_run patch cfg :
  let farm := ToNumber (patch_prop patch "farmIntervalSec") in
  let friend := ToNumber (patch_prop patch "friendIntervalSec") in
  let next :=
    {| farmIntervalSec :=
         if provided patch "farmIntervalSec"
         then Num.max (num 1) (Num.floor farm)
         else interval_sec (farmCheckInterval cfg);
       friendIntervalSec :=
         if provided patch "friendIntervalSec"
         then Num.max (num 1) (Num.floor friend)
         else interval_sec (friendCheckInterval cfg) |} in
  updateRuntimeSettings patch cfg
  = if provided patch "farmIntervalSec" && invalid_interval farm
    then (Thrown "invalid_farm_interval", cfg)
    else if provided patch "friendIntervalSec" && invalid_interval friend
    then (Thrown "invalid_friend_interval", cfg)
    else (Returned next,
          {| farmCheckInterval := Num.mul (farmIntervalSec next) (num 1000);
             friendCheckInterval := Num.mul (friendIntervalSec next) (num 1000) |}).
Proof.
  intros farm friend next. subst next.
  unfold updateRuntimeSettings, checked_interval, getRuntimeSettings,
    read_config, write_config, throw, mbind, M_bind, mret, M_ret.
  fold farm friend.
  destruct (provided patch "farmIntervalSec"),
    (provided patch "friendIntervalSec"),
    (invalid_interval farm), (invalid_interval friend); reflexivity.
Qed.


End SettingsProperties.

(** ** The properties on concrete runs *)

Section Examples.
#[local] Existing Instance decimal_builtins.

Let st0 : State := initial_state (num 0).
Let st_A : State := updateStatus (Some update_A) st0.
Let st_gain : State := updateStatus (Some update_gain) st_A.

(** [updateStatus({level: 5})] on the initial state: the identity does not
    change and the update carries neither exp nor gold, yet a baseline is
    anchored, from the exp and gold the snapshot already held. *)
Lemma updateStatus_anchors_on_stored_values :
  let p : obj := {[ "level" := VNum (num 5) ]} in
  let s := Object_assign (status st0) p in
  let b' := baseline (updateStatus (Some p) st0) in
  Baseline.ready (invalidate s (baseline st0)) = false
  ∧ loginReady s = true
  ∧ b' = Baseline.mk (Some (num 0)) (Some (num 0)) true "qq:"
  ∧ ¬ (Baseline.ready b' = true ↔
         identityChanged (status st0) s = true
         ∨ Number_isFinite (prop p "exp") = true
         ∨ Number_isFinite (prop p "gold") = true).
Proof.
  intros p s b'. split; [by vm_compute|]. split; [by vm_compute|].
  split; [by vm_compute|]. intros [Hanchored _].
  destruct (Hanchored ltac:(by vm_compute)) as [Hc|[Hc|Hc]];
    by vm_compute in Hc.
Qed.

(** The anchoring condition on the first update of the anchoring scenario. *)
Lemma updateStatus_anchor_condition_witness :
  let s := Object_assign (status st0) update_A in
  Baseline.ready (invalidate s (baseline st0)) = false
  ∧ loginReady s = true
  ∧ baseline (updateStatus (Some update_A) st0)
    = Baseline.mk (Some (num 50)) (Some (num 100)) true "qq:A".
Proof.
  intros s. split; [by vm_compute|]. split; [by vm_compute|].
  destruct (updateStatus_anchor_condition st0 update_A)
    as (_ & Hcarried & Hvalues & _); [by vm_compute..|].
  exact (Hvalues (Hcarried (or_introl eq_refl))).
Defined.

(** Five appends with capacity 3, then the id of a sixth entry and a query
    for the entries after id 3. *)
Lemma log_ring_buffer_witness :
  let calls := [ (VStr "INFO", VStr "a", "t1"); (VStr "INFO", VStr "b", "t2");
                 (VStr "WARN", VStr "c", "t3"); (VStr "INFO", VStr "d", "t4");
                 (VStr "ERROR", VStr "e", "t5") ] in
  let st := addLogs (num 3) calls st0 in
  Num.leb (num 3) (num 0) = false
  ∧ LogEntry.id (new_entry (VStr "INFO") (VStr "f") "t6" st) = 6
  ∧ LogEntry.id <$> getLogsSince (num 3) st = [4; 5].
Proof.
  intros calls st. split; [by vm_compute|].
  destruct log_ring_buffer as (_ & Hsince & Hids & _). split.
  - exact (proj1 (Hids (num 3) (num 0) calls (VStr "INFO") (VStr "f") "t6" eq_refl)).
  - rewrite (Hsince (num 3) st) by (by vm_compute). by vm_compute.
Defined.

Let st_manual : State :=
  (updateStrategyConfig
     (Some {[ "manualSeedId" := VNum (num 7); "manualSeedName" := VStr "X" ]})
     (num 1) st0).2.

Lemma st_manual_reachable : reachable st_manual.
Proof. exists (num 0). apply rtc_once. apply (step_update _ _ st0). Qed.

(** [updateStrategyConfig({clearManual: true, manualSeedId: -5})]: the patch
    carries no positive manualSeedId, and manualSeedId ends as -5, not 0. *)
Lemma clearManual_keeps_negative_seed :
  let p : obj := {[ "clearManual" := VBool true;
                    "manualSeedId" := VNum (num (-5)) ]} in
  let s' := strategy (updateStrategyConfig (Some p) (num 2) st_manual).2 in
  ToBoolean (prop p "clearManual") = true
  ∧ Num.gtb (patch_sid p) (num 0) = false
  ∧ manualSeedId s' = num (-5)
  ∧ manualSeedId s' ≠ num 0.
Proof. intros p s'. compute_done. Qed.

(** [update({manualSeedId: 7, manualSeedName: "X"})] gives the manual source,
    and a following [update({clearManual: true})] the automatic one. *)
Lemma manual_seed_invariant_witness :
  let p : obj := {[ "clearManual" := VBool true ]} in
  let s' := strategy (updateStrategyConfig (Some p) (num 2) st_manual).2 in
  manualSeedId (strategy st_manual) = num 7
  ∧ source (strategy st_manual) = "manual"
  ∧ manualSeedName s' = "" ∧ source s' = "auto" ∧ manualSeedId s' = num 0.
Proof.
  intros p s'. destruct manual_seed_invariant as [Hinv Hclear].
  split; [by vm_compute|]. split.
  - apply Hinv; [apply st_manual_reachable|by vm_compute].
  - destruct (Hclear st_manual p (num 2)) as (Hname & Hsrc & _ & Hid);
      [by vm_compute..|].
    split; [exact Hname|]. split; [exact Hsrc|]. apply Hid. by vm_compute.
Defined.







Let st_decided : State :=
  recordStrategyDecision (Some {[ "seedId" := VNum (num 1) ]}) (num 1) st0.

(** After a decision was recorded, writing a property of the object found in
    the lastDecision field of the value [getStrategyConfig] returned changes
    the decision object of the store. *)
Lemma getStrategyConfig_shares_lastDecision :
  let r := (getStrategyConfig st_decided).1 in
  let st' := (getStrategyConfig st_decided).2 in
  ∃ l, prop (default ∅ (heap st' !! r)) "lastDecision" = VObj l
       ∧ (strategy_view st_decided).2 ≫= (.!! "seedId") = Some (VNum (num 1))
       ∧ (strategy_view (set_prop l "seedId" (VNum (num 2)) st')).2
           ≫= (.!! "seedId") = Some (VNum (num 2))
       ∧ strategy_view (set_prop l "seedId" (VNum (num 2)) st')
         ≠ strategy_view st_decided.
Proof. intros r st'. exists 1%positive. compute_done. Qed.

(** After a decision was recorded, overwriting every field of the value
    [getStrategyConfig] returned leaves the store as it was. *)
Lemma getStrategyConfig_shallow_snapshot_witness :
  let r := (getStrategyConfig st_decided).1 in
  let st' := (getStrategyConfig st_decided).2 in
  let writes := [ ("mode", VStr "noFert"); ("manualSeedId", VNum (num 9));
                  ("source", VStr "manual"); ("lastDecision", VNull) ] in
  heap_closed st_decided
  ∧ strategy_view (set_props r writes st') = strategy_view st_decided.
Proof.
  intros r st' writes.
  assert (Hclosed : heap_closed st_decided).
  { intros l Hl. vm_compute in Hl. injection Hl as <-. vm_compute. eauto. }
  split; [exact Hclosed|].
  apply (getStrategyConfig_shallow_snapshot st_decided writes Hclosed).
Defined.

End Examples.

(** * Further properties *)

(** ** The baseline over sequences of updates *)

Section BaselineRuns.
Context `{Builtins}.
Implicit Types (st : State) (p : obj) (b : Baseline.t) (s : obj).

Lemma identityKey_nonempty s : loginReady s = true → identityKey s ≠ "".
Proof.
  intros Hlogin. unfold identityKey. rewrite Hlogin.
  by destruct (status_platform s).
Qed.

Lemma identityKey_empty s : loginReady s = false → identityKey s = "".
Proof. intros Hlogin. unfold identityKey. by rewrite Hlogin. Qed.

Lemma invalidate_cases s b :
  invalidate s b = b
  ∨ (invalidate s b = Baseline.mk None None false "" ∧ Baseline.ready b = true
     ∧ identityKey s ≠ "" ∧ identityKey s ≠ Baseline.key b).
Proof.
  unfold invalidate, nonempty.
  destruct (Baseline.ready b); simpl; [|by left].
  repeat case_bool_decide; simpl; auto.
Qed.

Lemma invalidate_sound s b : baseline_sound b → baseline_sound (invalidate s b).
Proof. destruct (invalidate_cases s b) as [->|(-> & _)]; done. Qed.

Lemma anchor_sound prev s b : baseline_sound b → baseline_sound (anchor prev s b).
Proof.
  intros Hb. unfold anchor. destruct (anchors prev s b) eqn:Ha; [|done].
  unfold anchors in Ha. apply andb_prop in Ha as [[_ Hlogin]%andb_prop _].
  split; [|by apply identityKey_nonempty].
  unfold finite_or_zero.
  destruct (prop s "gold") as [| | |[]| |], (prop s "exp") as [| | |[]| |];
    simpl; eauto.
Qed.

Lemma updateStatus_sound partial st :
  baseline_sound (baseline st) → baseline_sound (baseline (updateStatus partial st)).
Proof.
  destruct partial as [p|]; [|done]. intros Hb.
  by apply anchor_sound, invalidate_sound.
Qed.

(** X1: whatever updates the store receives, of any shape and in any order,
    its baseline is either ready with a finite gold, a finite exp and a
    non-empty key, or not ready with gold and exp null and an empty key. *)
Theorem baseline_always_sound (now : number) (updates : list (option obj)) :
  baseline_sound (baseline (updateStatuses updates (initial_state now))).
Proof.
  assert (Hgen : ∀ st, baseline_sound (baseline st) →
                       baseline_sound (baseline (updateStatuses updates st))).
  { induction updates as [|p updates IH]; intros st Hst; [done|].
    apply IH. by apply updateStatus_sound. }
  by apply Hgen.
Qed.

Lemma strict_eq_refl_of u v : strict_eq u v = true → strict_eq v v = true.
Proof.
  destruct u as [| | |x| |], v as [| | |y| |]; simpl; try done;
    try (intros _; by apply bool_decide_eq_true).
  destruct x, y; simpl; try done; intros _; by apply bool_decide_eq_true.
Qed.

Lemma identityChanged_again prev s :
  identityChanged prev s = false → identityChanged s s = false.
Proof.
  unfold identityChanged. rewrite !orb_false_iff, !negb_false_iff.
  intros [Hn Hp]. eauto using strict_eq_refl_of.
Qed.

Lemma invalidate_not_ready s b :
  Baseline.ready b = false → invalidate s b = b.
Proof. intros Hb. unfold invalidate. by rewrite Hb. Qed.

Lemma invalidate_same_key s b :
  identityKey s = Baseline.key b ∨ identityKey s = "" → invalidate s b = b.
Proof.
  intros Hk. unfold invalidate, nonempty.
  destruct (Baseline.ready b); simpl; [|done].
  destruct Hk as [->| ->]; simpl; [|done].
  rewrite (bool_decide_eq_true_2 (Baseline.key b = Baseline.key b)) by done.
  by rewrite andb_false_r.
Qed.

Lemma anchor_ready_id prev s b : Baseline.ready b = true → anchor prev s b = b.
Proof. intros Hb. unfold anchor, anchors. by rewrite Hb. Qed.

Lemma baseline_update_again prev s b :
  let b1 := anchor prev s (invalidate s b) in
  anchor s s (invalidate s b1) = b1.
Proof.
  intros b1. destruct (Baseline.ready b1) eqn:Hb1.
  - (* ready after the first call: its key is the identity key, or it was
       kept because the keys agree *)
    assert (Hinv : invalidate s b1 = b1).
    { subst b1. unfold anchor in *.
      destruct (anchors prev s (invalidate s b)) eqn:Ha.
      - apply invalidate_same_key. by left.
      - destruct (invalidate_cases s b) as [Hi|(Hi & _)];
          rewrite Hi in Hb1 |- *; [|done].
        by rewrite Hi. }
    rewrite Hinv. by apply anchor_ready_id.
  - rewrite (invalidate_not_ready s b1) by done.
    assert (Ha : anchors prev s (invalidate s b) = false).
    { destruct (anchors prev s (invalidate s b)) eqn:Ha; [|done].
      subst b1. unfold anchor in Hb1. by rewrite Ha in Hb1. }
    assert (Hb1' : b1 = invalidate s b) by (subst b1; unfold anchor; by rewrite Ha).
    unfold anchor. replace (anchors s s b1) with false; [done|].
    symmetry. rewrite Hb1' in Hb1 |- *. unfold anchors in *. rewrite Hb1 in *.
    simpl in *. destruct (loginReady s); simpl in *; [|done].
    apply orb_false_iff in Ha as [[Hc ->]%orb_false_iff ->].
    by rewrite (identityChanged_again prev s).
Qed.

(** X2: [updateStatus] is idempotent: repeating an update leaves the state,
    baseline included, as the first call left it. *)
Theorem updateStatus_idempotent (partial : option obj) (st : State) :
  updateStatus partial (updateStatus partial st) = updateStatus partial st.
Proof.
  destruct partial as [p|]; [|done]. unfold updateStatus. simpl.
  assert (Hs : Object_assign (Object_assign (status st) p) p
               = Object_assign (status st) p).
  { unfold Object_assign. by rewrite (assoc_L (∪)), (idemp_L (∪)). }
  rewrite Hs. f_equal. apply baseline_update_again.
Qed.

Lemma prop_keeps_identity s p k :
  p !! k = None → prop (Object_assign s p) k = prop s k.
Proof.
  intros Hk. unfold prop, Object_assign. by rewrite lookup_union_r.
Qed.

Lemma identityKey_keeps_identity s p :
  keeps_identity p → identityKey (Object_assign s p) = identityKey s.
Proof.
  intros (Hn & Hp & Hl).
  unfold identityKey, loginReady, status_name, status_platform.
  by rewrite !prop_keeps_identity.
Qed.

(** X3: once a baseline is anchored for the current identity, updates that
    carry no name, platform or level (the periodic exp/gold reports) never
    move it, however many follow and whatever values they carry. *)
Theorem baseline_frozen (st : State) (updates : list obj) :
  Baseline.ready (baseline st) = true →
  identityKey (status st) = Baseline.key (baseline st) →
  Forall keeps_identity updates →
  baseline (updateStatuses (Some <$> updates) st) = baseline st.
Proof.
  intros Hready Hkey Hall. revert st Hready Hkey.
  induction Hall as [|p updates Hp Hall IH]; intros st Hready Hkey; [done|].
  assert (Hone : baseline (updateStatus (Some p) st) = baseline st).
  { simpl. rewrite invalidate_same_key, anchor_ready_id; [done..|].
    left. by rewrite identityKey_keeps_identity. }
  change (updateStatuses (Some <$> p :: updates) st)
    with (updateStatuses (Some <$> updates) (updateStatus (Some p) st)).
  rewrite IH, Hone; [done|by rewrite Hone|].
  rewrite Hone. simpl. by rewrite identityKey_keeps_identity.
Qed.

End BaselineRuns.

(** ** More on the metrics *)

Section MoreMetrics.
Context `{Builtins}.
Variable getLevelExpProgress : number → number → Progress.

Lemma sub_self q : Num.sub (Fin q) (Fin q) = num 0.
Proof.
  unfold Num.sub, Num.neg, Num.add, num. f_equal.
  rewrite Qcplus_opp_r. by rewrite Z2Qc_inj_0.
Qed.

(** X4: while no baseline is ready, the reported gains are 0 whenever the
    current exp (respectively gold) is a finite number: the current value
    stands in for the missing baseline. *)
Theorem no_baseline_no_gain (uptimeSec : number) (st : State) :
  Baseline.ready (baseline st) = false →
  let m := buildMetrics getLevelExpProgress uptimeSec st in
  (Num.isFinite (ToNumber (prop (status st) "exp")) = true → expGain m = num 0)
  ∧ (Num.isFinite (ToNumber (prop (status st) "gold")) = true → goldGain m = num 0).
Proof.
  intros Hready m. subst m. unfold buildMetrics. simpl. rewrite Hready.
  assert (Hbase : ∀ o c, base_or false o c = c) by (by intros [] ?).
  rewrite !Hbase.
  split; intros Hfin.
  - destruct (ToNumber (prop (status st) "exp")) as [| | |q]; try done.
    unfold Num.or. destruct (Num.truthy (Fin q)); apply sub_self.
  - destruct (ToNumber (prop (status st) "gold")) as [| | |q]; try done.
    unfold Num.or. destruct (Num.truthy (Fin q)); apply sub_self.
Qed.

Lemma min_num a b : Num.min (num a) (num b) = num (Z.min a b).
Proof.
  unfold Num.min, num; simpl.
  case_bool_decide as Hlt; do 2 f_equal.
  - apply Z2Qc_inj_lt in Hlt. lia.
  - rewrite <-Z2Qc_inj_lt in Hlt. lia.
Qed.

Lemma clamp_round_range x :
  clamp_0_100 (Num.round x) = NaN ∧ x = NaN
  ∨ ∃ z, 0 ≤ z ≤ 100 ∧ clamp_0_100 (Num.round x) = num z.
Proof.
  destruct x as [| | |q].
  - by left.
  - right. exists 100. split; [lia|compute_done].
  - right. exists 0. split; [lia|compute_done].
  - right. unfold Num.round, clamp_0_100.
    rewrite min_num, NumFacts.max_num. eexists. split; [|done]. lia.
Qed.

(** X5: the two gauges of the metrics, expProgress and goldRateProgress, are
    each a whole number between 0 and 100, or NaN (when the ratio they are
    computed from is NaN); goldRateProgress is 0 while the rates are not
    ready. *)
Theorem gauges_in_range (uptimeSec : number) (st : State) :
  let m := buildMetrics getLevelExpProgress uptimeSec st in
  (expProgress m = NaN ∨ ∃ z, 0 ≤ z ≤ 100 ∧ expProgress m = num z)
  ∧ (goldRateProgress m = NaN ∨ ∃ z, 0 ≤ z ≤ 100 ∧ goldRateProgress m = num z)
  ∧ (rateReady m = false → goldRateProgress m = num 0).
Proof.
  intros m. split; [|split].
  - destruct (clamp_round_range
                (Num.mul (Num.div (expCurrent m) (expNeeded m)) (num 100)))
      as [[? _]|?]; [by left|by right].
  - destruct (clamp_round_range
                (Num.mul (Num.div (Num.abs (goldPerHour m)) (num 30000)) (num 100)))
      as [[? _]|?]; [by left|by right].
  - intros Hready. subst m. unfold buildMetrics in *. simpl in *.
    rewrite Hready. compute_done.
Qed.

End MoreMetrics.

(** ** More on the log *)

Section MoreLogs.
Context `{Builtins}.
Implicit Types (MAX_LOGS : number) (st : State)
  (calls : list (value * value * string)).

Lemma addLogs_cons MAX_LOGS c calls st :
  addLogs MAX_LOGS (c :: calls) st
  = addLogs MAX_LOGS calls (addLog MAX_LOGS c.1.1 c.1.2 c.2 st).
Proof. done. Qed.

Lemma gtb_num a b : Num.gtb (num a) (num b) = bool_decide (b < a).
Proof. apply NumFacts.ltb_num. Qed.

(** One append with a whole capacity: the entry is pushed and, when that
    exceeds the capacity, the oldest entry is dropped. *)
Lemma addLog_whole_capacity (c : nat) level message nowIso st :
  (1 ≤ c)%nat →
  logs (addLog (num (Z.of_nat c)) level message nowIso st)
  = (if bool_decide (c < length (logs st) + 1)%nat
     then tail (logs st ++ [new_entry level message nowIso st])
     else logs st ++ [new_entry level message nowIso st])
  ∧ nextLogId (addLog (num (Z.of_nat c)) level message nowIso st)
    = nextLogId st + 1.
Proof.
  intros Hc. unfold addLog. rewrite NumFacts.leb_num.
  rewrite bool_decide_eq_false_2 by lia. cbn [logs nextLogId]. split; [|done].
  rewrite gtb_num, length_app. cbn [length]. unfold shift.
  by rewrite (bool_decide_ext (Z.of_nat c < Z.of_nat (length (logs st) + 1))
                              (c < length (logs st) + 1)%nat) by lia.
Qed.

Lemma addLogs_retention (c : nat) calls st :
  (1 ≤ c)%nat → (length (logs st) ≤ c)%nat →
  logs (addLogs (num (Z.of_nat c)) calls st)
  = drop (length (logs st) + length calls - c)
         (logs st ++ entries_from (nextLogId st) calls).
Proof.
  intros Hc. revert st. induction calls as [|call calls IH]; intros st Hlen.
  - simpl. rewrite app_nil_r.
    by replace (length (logs st) + 0 - c)%nat with 0%nat by lia.
  - rewrite addLogs_cons.
    destruct (addLog_whole_capacity c call.1.1 call.1.2 call.2 st Hc)
      as [Hlogs Hnext].
    set (st1 := addLog _ _ _ _ st) in *.
    set (e := new_entry call.1.1 call.1.2 call.2 st) in *.
    assert (He : entries_from (nextLogId st) (call :: calls)
                 = e :: entries_from (nextLogId st1) calls)
      by (by rewrite Hnext).
    rewrite He. case_bool_decide as Hfull.
    + destruct (logs st) as [|x l] eqn:Hl; simpl in Hlen, Hfull, Hlogs; [lia|].
      rewrite IH by (rewrite Hlogs, length_app; simpl; lia).
      rewrite Hlogs, length_app. simpl length.
      replace (length l + 1 + length calls - c)%nat with (length calls) by lia.
      replace (S (length l) + S (length calls) - c)%nat
        with (S (length calls)) by lia.
      rewrite <-app_assoc. done.
    + rewrite IH by (rewrite Hlogs, length_app; simpl; lia).
      rewrite Hlogs, length_app. simpl length. rewrite <-app_assoc. simpl.
      f_equal. lia.
Qed.

Lemma length_entries_from n calls : length (entries_from n calls) = length calls.
Proof.
  revert n. induction calls as [|call calls IH]; intros n; simpl; [done|].
  by rewrite IH.
Qed.

(** X6: with a whole capacity c of at least 1, the buffer holds exactly the
    most recent c entries, oldest first, each with the id, level, message
    and timestamp it was created with: after n appends to the empty buffer
    it is the list of the n created entries without its first n - c ones,
    and so never holds more than c entries. *)
Theorem log_keeps_most_recent (c : nat) (now : number) calls :
  (1 ≤ c)%nat →
  let st := addLogs (num (Z.of_nat c)) calls (initial_state now) in
  logs st = drop (length calls - c) (entries_from 1 calls)
  ∧ length (logs st) = (length calls `min` c)%nat.
Proof.
  intros Hc st.
  assert (Hlogs : logs st = drop (length calls - c) (entries_from 1 calls)).
  { subst st. rewrite addLogs_retention by (simpl; lia). done. }
  split; [done|]. rewrite Hlogs, length_drop.
  rewrite length_entries_from. lia.
Qed.

Lemma addLog_last_is_newest MAX_LOGS level message nowIso st :
  last_is_newest st → last_is_newest (addLog MAX_LOGS level message nowIso st).
Proof.
  intros Hst. unfold addLog. destruct (Num.leb MAX_LOGS (num 0)); [done|].
  intros e. simpl.
  assert (Hlast : ∀ l : list LogEntry.t, ∀ x,
            last (tail (l ++ [x])) = Some e → e = x).
  { intros [|y l] x; simpl; [done|]. rewrite last_snoc. by intros [= <-]. }
  destruct (Num.gtb _ MAX_LOGS).
  - intros ->%Hlast. simpl. lia.
  - rewrite last_snoc. intros [= <-]. simpl. lia.
Qed.

Lemma addLogs_last_is_newest MAX_LOGS calls st :
  last_is_newest st → last_is_newest (addLogs MAX_LOGS calls st).
Proof.
  revert st. induction calls as [|c calls IH]; intros st Hst; [done|].
  rewrite addLogs_cons. by apply IH, addLog_last_is_newest.
Qed.

Lemma filter_none {A} (P : A → Prop) `{∀ x, Decision (P x)} (l : list A) :
  Forall (λ x, ¬ P x) l → filter P l = [].
Proof.
  induction 1 as [|x l Hx _ IH]; [done|].
  rewrite filter_cons. by rewrite decide_False.
Qed.

Lemma getLogsSince_last st :
  ids_ordered st → last_is_newest st →
  getLogsSince (num (lastLogId st)) st = [].
Proof.
  intros (Hnext & _ & Hrange) Hlast. unfold getLogsSince, lastLogId.
  destruct (last (logs st)) as [e|] eqn:He.
  - cbn [Num.isFinite num negb orb]. rewrite NumFacts.leb_num.
    assert (He' : e ∈ logs st).
    { apply last_Some in He as [l ->]. set_solver. }
    rewrite Forall_forall in Hrange. pose proof (Hrange e He') as Hid.
    rewrite bool_decide_eq_false_2 by lia.
    apply filter_none, Forall_forall. intros x Hx.
    rewrite gtb_num, bool_decide_eq_true.
    apply Hrange in Hx. rewrite (Hlast e He). lia.
  - apply last_None in He. by rewrite He.
Qed.

Lemma capacity_enabled MAX_LOGS :
  Num.leb (num 1) MAX_LOGS = true → Num.leb MAX_LOGS (num 0) = false.
Proof.
  destruct MAX_LOGS as [| | |q]; simpl; try done.
  rewrite bool_decide_eq_true, bool_decide_eq_false. intros Hq Hq'.
  assert (Hle : (Qc_of_Z 1 ≤ Qc_of_Z 0)%Qc) by (by etrans).
  apply Z2Qc_inj_le in Hle. lia.
Qed.

(** X7: a client that polls the log with the last id it was given
    ([lastLogId], 0 for an empty buffer) gets nothing as long as nothing is
    appended, and, when the capacity is at least 1, gets exactly the new
    entry after one append. *)
Theorem polling_with_lastLogId MAX_LOGS (now : number) calls :
  let st := addLogs MAX_LOGS calls (initial_state now) in
  getLogsSince (num (lastLogId st)) st = []
  ∧ (∀ level message nowIso,
       Num.leb (num 1) MAX_LOGS = true →
       getLogsSince (num (lastLogId st)) (addLog MAX_LOGS level message nowIso st)
       = [new_entry level message nowIso st]).
Proof.
  intros st.
  assert (Hord : ids_ordered st)
    by apply addLogs_ids_ordered, initial_ids_ordered.
  assert (Hlast : last_is_newest st)
    by (by apply addLogs_last_is_newest).
  split; [by apply getLogsSince_last|].
  intros level message nowIso Hcap.
  destruct Hord as (Hnext & _ & Hrange).
  set (e := new_entry level message nowIso st).
  assert (Hlogs : ∃ l, Forall (λ x, LogEntry.id x < nextLogId st) l
                       ∧ logs (addLog MAX_LOGS level message nowIso st) = l ++ [e]).
  { unfold addLog. rewrite (capacity_enabled _ Hcap). cbn [logs]. fold e.
    assert (Hlt : Forall (λ x, LogEntry.id x < nextLogId st) (logs st))
      by (eapply Forall_impl; [done|]; simpl; lia).
    destruct (Num.gtb _ MAX_LOGS) eqn:Hfull; [|eauto].
    destruct (logs st) as [|x l].
    - change (Num.ltb MAX_LOGS (num 1) = true) in Hfull.
      by rewrite (NumFacts.leb_ltb_false _ _ Hcap) in Hfull.
    - exists l. split; [by apply Forall_cons in Hlt as [_ ?]|done]. }
  destruct Hlogs as (l & Hl & Hlogs).
  assert (Hsince : lastLogId st = 0 ∧ l = [] ∨ lastLogId st = nextLogId st - 1
                                               ∧ 0 < lastLogId st).
  { unfold lastLogId, last_is_newest in *.
    destruct (last (logs st)) as [e0|] eqn:He0.
    - right. rewrite (Hlast e0) by done. split; [done|].
      assert (He0' : e0 ∈ logs st).
      { apply last_Some in He0 as [l0 ->]. set_solver. }
      rewrite Forall_forall in Hrange. apply Hrange in He0'.
      rewrite <-(Hlast e0) by done. lia.
    - left. split; [done|]. apply last_None in He0.
      unfold addLog in Hlogs. rewrite (capacity_enabled _ Hcap) in Hlogs.
      cbn [logs] in Hlogs. rewrite He0 in Hlogs.
      change (Num.gtb _ MAX_LOGS) with (Num.ltb MAX_LOGS (num 1)) in Hlogs.
      rewrite (NumFacts.leb_ltb_false _ _ Hcap) in Hlogs.
      destruct l as [|? [|? ?]]; by simplify_eq. }
  unfold getLogsSince. rewrite Hlogs.
  destruct Hsince as [[-> ->]|[-> Hpos]]; [done|].
  cbn [Num.isFinite num negb orb]. rewrite NumFacts.leb_num.
  rewrite bool_decide_eq_false_2 by lia.
  rewrite filter_app, filter_none, filter_cons_True, filter_nil; [done|..].
  - rewrite gtb_num. apply bool_decide_eq_true. simpl. lia.
  - eapply Forall_impl; [done|]. intros x Hx. cbn beta in *.
    rewrite gtb_num, bool_decide_eq_true. lia.
Qed.

Lemma addLogs_NaN calls st :
  logs (addLogs NaN calls st) = logs st ++ entries_from (nextLogId st) calls.
Proof.
  revert st. induction calls as [|c calls IH]; intros st.
  - simpl. by rewrite app_nil_r.
  - rewrite addLogs_cons, IH. unfold addLog. simpl. by rewrite <-app_assoc.
Qed.

Lemma addLogs_disabled MAX_LOGS calls st :
  Num.leb MAX_LOGS (num 0) = true → addLogs MAX_LOGS calls st = st.
Proof.
  intros Hle. induction calls as [|c calls IH]; [done|].
  by rewrite addLogs_cons, addLog_disabled.
Qed.


End MoreLogs.

(** ** More on the strategy store *)

Section MoreStrategy.
Context `{Builtins}.
Implicit Types (s : Strategy) (st : State) (p : obj).

Lemma patch_strategy_mode p now s :
  mode (patch_strategy p now s) = mode s
  ∨ mode (patch_strategy p now s) = "normalFert"
  ∨ mode (patch_strategy p now s) = "noFert".
Proof.
  assert (Hmode : mode (patch_strategy p now s) = mode (apply_mode p s)).
  { unfold patch_strategy, apply_manualSeedId, apply_clearManual.
    repeat (case_match; simpl; try done). }
  rewrite Hmode. unfold apply_mode.
  destruct (prop p "mode") as [| | | |m|]; auto.
  repeat case_bool_decide; subst; simpl; auto.
Qed.

Lemma patch_sid_not_NaN p : patch_sid p ≠ NaN.
Proof. by apply NumFacts.or_not_NaN. Qed.

Lemma patch_strategy_wellformed p now s :
  strategy_wellformed s → strategy_wellformed (patch_strategy p now s).
Proof.
  intros (Hmode & Hsrc & Hid & Hname).
  destruct (patch_strategy_manual p now s) as (Hid' & Hsrc' & Hname').
  cbv zeta in *. repeat split.
  - destruct (patch_strategy_mode p now s) as [->|[->| ->]]; auto.
  - rewrite Hsrc'. destruct (negb _ && _); [by right|].
    by destruct (ToBoolean _); [left|].
  - rewrite Hid'. destruct (negb _); [apply patch_sid_not_NaN|].
    by destruct (ToBoolean _).
  - rewrite Hsrc', Hname'. destruct (negb _ && _); [done|].
    by destruct (ToBoolean _).
Qed.

Lemma strategy_step_wellformed st st' :
  strategy_step st st' →
  strategy_wellformed (strategy st) → strategy_wellformed (strategy st').
Proof.
  destruct 1 as [[p|] now st|decision now st]; [|done..].
  rewrite strategy_updateStrategyConfig. apply patch_strategy_wellformed.
Qed.

(** X9: whatever patches and decisions the strategy store receives, its mode
    is one of normalFert and noFert (any other mode in a patch is ignored),
    its source is auto or manual, its manualSeedId is never NaN, and with
    the automatic source the manual seed name is empty. *)
Theorem strategy_always_wellformed (st : State) :
  reachable st → strategy_wellformed (strategy st).
Proof.
  intros [now Hrtc]. revert st Hrtc.
  apply (rtc_ind_r (λ st, strategy_wellformed (strategy st))).
  - split; [by left|]. split; [by left|]. by split.
  - eauto using strategy_step_wellformed.
Qed.

(** X10: a patch that sets a positive manualSeedId without a (truthy)
    manualSeedName keeps the name the store had; but if the same patch also
    sets clearManual, the clear runs first and the name ends empty, the
    source being manual in both cases. *)
Theorem manual_name_fallback (p : obj) (now : number) (st : State) :
  strict_eq (prop p "manualSeedId") VUndefined = false →
  Num.gtb (patch_sid p) (num 0) = true →
  ToBoolean (prop p "manualSeedName") = false →
  let s' := strategy (updateStrategyConfig (Some p) now st).2 in
  source s' = "manual"
  ∧ manualSeedId s' = patch_sid p
  ∧ manualSeedName s'
    = (if ToBoolean (prop p "clearManual") then ""
       else manualSeedName (strategy st)).
Proof.
  intros Hgiven Hpos Hname s'. subst s'.
  rewrite strategy_updateStrategyConfig.
  destruct (patch_strategy_manual p now (strategy st)) as (-> & -> & ->).
  rewrite Hgiven, Hpos. simpl. split; [done|]. split; [done|].
  unfold js_or at 1. rewrite Hname. unfold js_or. simpl.
  destruct (ToBoolean (prop p "clearManual")); simpl; [done|].
  by case_bool_decide.
Qed.

Lemma or_zero_id x : x ≠ NaN → Num.or x (num 0) = x.
Proof.
  intros Hx. unfold Num.or. destruct x as [| | |q]; simpl; try done.
  case_bool_decide as Hq; simpl; [|done].
  subst. unfold num. by rewrite Z2Qc_inj_0.
Qed.

(** X11: in every state the strategy store reaches, [getStrategyConfig]
    returns an object that did not exist before the call and whose mode,
    manualSeedId, manualSeedName, source and lastDecision are exactly the
    stored ones: the defaults written in the function never replace a stored
    value. *)
Theorem getStrategyConfig_reads_back (st : State) :
  reachable st →
  let r := (getStrategyConfig st).1 in
  let st' := (getStrategyConfig st).2 in
  let s := strategy st in
  heap st !! r = None
  ∧ ∃ o, heap st' !! r = Some o
         ∧ prop o "mode" = VStr (mode s)
         ∧ prop o "manualSeedId" = VNum (manualSeedId s)
         ∧ prop o "manualSeedName" = VStr (manualSeedName s)
         ∧ prop o "source" = VStr (source s)
         ∧ prop o "lastDecision" = ref_or_null (lastDecision s).
Proof.
  intros (Hmode & Hsrc & Hid & _)%strategy_always_wellformed r st' s.
  split.
  { apply not_elem_of_dom. apply is_fresh. }
  exists (strategy_snapshot s). split; [apply alloc_lookup_new|].
  subst s. clear r st'. set (s := strategy st) in *. clearbody s.
  assert (Hprops :
    prop (strategy_snapshot s) "mode" = VStr (mode s)
    ∧ prop (strategy_snapshot s) "manualSeedId"
      = VNum (Num.or (manualSeedId s) (num 0))
    ∧ prop (strategy_snapshot s) "manualSeedName"
      = js_or (VStr (manualSeedName s)) (VStr "")
    ∧ prop (strategy_snapshot s) "source" = js_or (VStr (source s)) (VStr "auto")
    ∧ prop (strategy_snapshot s) "lastDecision" = ref_or_null (lastDecision s))
    by (by vm_compute).
  destruct Hprops as (-> & -> & -> & -> & ->).
  split; [done|]. split; [by rewrite or_zero_id|].
  split.
  { unfold js_or. simpl. case_bool_decide as Hn; simpl; [by rewrite Hn|done]. }
  split; [|done]. by destruct Hsrc as [-> | ->].
Qed.

(** X12: the writers of the strategy store never write to an object that
    already exists: a step of [updateStrategyConfig] or
    [recordStrategyDecision] leaves every existing object as it is (a
    snapshot taken earlier keeps showing the decision it was taken with),
    and [recordStrategyDecision] makes lastDecision a new object. *)
Theorem store_writes_only_new_objects (st st' : State) (l : loc) :
  strategy_step st st' →
  is_Some (heap st !! l) →
  heap st' !! l = heap st !! l
  ∧ (∀ decision now,
       st' = recordStrategyDecision decision now st →
       lastDecision (strategy st') ≠ Some l
       ∧ (lastDecision (strategy st') ≫= λ l', heap st' !! l')
         = Some (decision_record decision now)).
Proof.
  intros Hstep Hl. split.
  - destruct Hstep as [[p|] now st|decision now st].
    + by apply (alloc_lookup_old _ (set_strategy _ st)).
    + by apply alloc_lookup_old.
    + by apply (alloc_lookup_old (decision_record decision now) st).
  - intros decision now ->. split.
    + intros [= Hfresh].
      by apply (alloc_not_old (decision_record decision now) st l).
    + simpl. apply lookup_insert_eq.
Qed.


End MoreStrategy.

(** ** More on the runtime settings *)

Section MoreSettings.
Context `{Builtins}.

Lemma whole_seconds_geb x : whole_seconds x → Num.geb x (num 1) = true.
Proof.
  intros [->|(z & Hz & ->)]; [done|].
  unfold Num.geb. rewrite NumFacts.leb_num. by apply bool_decide_eq_true.
Qed.

(** X14: whatever the configuration holds (0, NaN, a negative or a
    fractional number of milliseconds, Infinity), [getRuntimeSettings]
    never fails, leaves the configuration as it is, and reports for each
    interval a whole number of seconds that is at least 1, or Infinity; an
    interval of 0 or NaN milliseconds reads as 1 second. *)
Theorem getRuntimeSettings_at_least_one_second (cfg : Config) :
  ∃ s, getRuntimeSettings cfg = (Returned s, cfg)
       ∧ whole_seconds (farmIntervalSec s) ∧ whole_seconds (friendIntervalSec s)
       ∧ Num.geb (farmIntervalSec s) (num 1) = true
       ∧ Num.geb (friendIntervalSec s) (num 1) = true
       ∧ (Num.truthy (farmCheckInterval cfg) = false → farmIntervalSec s = num 1)
       ∧ (Num.truthy (friendCheckInterval cfg) = false → friendIntervalSec s = num 1).
Proof.
  eexists. split; [done|]. simpl.
  pose proof (interval_sec_whole (farmCheckInterval cfg)) as Hfarm.
  pose proof (interval_sec_whole (friendCheckInterval cfg)) as Hfriend.
  split; [done|]. split; [done|].
  split; [by apply whole_seconds_geb|]. split; [by apply whole_seconds_geb|].
  split; intros Hz; unfold interval_sec, Num.or; rewrite Hz; compute_done.
Qed.

Lemma updateRuntimeSettings_accepted patch cfg next cfg' :
  updateRuntimeSettings patch cfg = (Returned next, cfg') →
  getRuntimeSettings cfg' = (Returned next, cfg')
  ∧ cfg' = {| farmCheckInterval := Num.mul (farmIntervalSec next) (num 1000);
              friendCheckInterval := Num.mul (friendIntervalSec next) (num 1000) |}
  ∧ whole_seconds (farmIntervalSec next) ∧ whole_seconds (friendIntervalSec next).
Proof.
  intros Hrun. pose proof (updateRuntimeSettings_run patch cfg) as Hcfg.
  cbv zeta in Hcfg. rewrite Hrun in Hcfg.
  destruct (provided patch "farmIntervalSec" && _) eqn:Hbad1; [done|].
  destruct (provided patch "friendIntervalSec" && _) eqn:Hbad2; [done|].
  injection Hcfg as -> ->.
  cbn [farmCheckInterval friendCheckInterval farmIntervalSec friendIntervalSec].
  assert (Hfarm : whole_seconds
            (if provided patch "farmIntervalSec"
             then Num.max (num 1)
                    (Num.floor (ToNumber (patch_prop patch "farmIntervalSec")))
             else interval_sec (farmCheckInterval cfg))).
  { destruct (provided patch "farmIntervalSec");
      [by apply checked_interval_whole|apply interval_sec_whole]. }
  assert (Hfriend : whole_seconds
            (if provided patch "friendIntervalSec"
             then Num.max (num 1)
                    (Num.floor (ToNumber (patch_prop patch "friendIntervalSec")))
             else interval_sec (friendCheckInterval cfg))).
  { destruct (provided patch "friendIntervalSec");
      [by apply checked_interval_whole|apply interval_sec_whole]. }
  split; [|done].
  unfold getRuntimeSettings, read_config, mbind, M_bind, mret, M_ret.
  cbn [farmCheckInterval friendCheckInterval].
  by rewrite !interval_sec_stored.
Qed.

Lemma updateRuntimeSettings_thrown patch cfg msg cfg' :
  updateRuntimeSettings patch cfg = (Thrown msg, cfg') →
  cfg' = cfg ∧ (msg = "invalid_farm_interval" ∨ msg = "invalid_friend_interval").
Proof.
  intros Hrun. pose proof (updateRuntimeSettings_run patch cfg) as Hcfg.
  cbv zeta in Hcfg. rewrite Hrun in Hcfg.
  destruct (provided patch "farmIntervalSec" && _); [by simplify_eq; auto|].
  destruct (provided patch "friendIntervalSec" && _); [by simplify_eq; auto|].
  done.
Qed.


End MoreSettings.

(** ** The HTTP layer *)

Section HttpProperties.
Context `{Builtins} `{StringMethods}.
Variable DASHBOARD_TOKEN : string.
Variable resolve_in_root : string → string.
Variable resolved_root : string.
Variable getLevelExpProgress : number → number → Progress.
Variable getPlantingRecommendation :
  number → number → number → outcome Recommendation.

Abbreviation handle :=
  (handleRequest DASHBOARD_TOKEN resolve_in_root resolved_root
                 getLevelExpProgress getPlantingRecommendation).

(** X16: with a token configured, a request whose token is not that token
    is answered 401, as plain text on the root page and as the JSON error
    Unauthorized on every other path, whatever its method and body, and
    neither the store nor the configuration changes. *)
Theorem unauthorized_requests_denied (req : Request.t) (body : outcome jsbody)
    (now serverTime : number) (st : State) (cfg : Config) :
  DASHBOARD_TOKEN ≠ "" →
  getRequestToken req ≠ DASHBOARD_TOKEN →
  handle req body now serverTime st cfg
  = (if bool_decide (Request.pathname req = "/")
     then Text 401 "Dashboard token required. Use ?token=YOUR_TOKEN"
     else Json 401 (ErrorBody "Unauthorized"),
     st, cfg).
Proof.
  intros Htoken Hreq. unfold handleRequest, ensureAuthorized, nonempty.
  rewrite (bool_decide_eq_false_2 (DASHBOARD_TOKEN = "")) by done.
  rewrite (bool_decide_eq_false_2 (getRequestToken req = DASHBOARD_TOKEN)) by done.
  simpl. by case_bool_decide.
Qed.

Lemma startsWith_append pre s : startsWith (pre +:+ s) pre = true.
Proof.
  unfold startsWith. induction pre as [|c pre IH]; simpl.
  - by destruct s.
  - by destruct (Ascii.ascii_dec c c).
Qed.

Lemma str_or_some s : str_or (Some s) "" = s.
Proof. unfold str_or. by case_bool_decide. Qed.

(** X17: the token of a request is its [token] query parameter when that is
    present and not empty, whatever the Authorization header says; only
    otherwise is it read from the header, as the trimmed text after
    "Bearer ", and it is empty when the header is missing or of another
    form. So a wrong [?token=] is not made good by a correct header. *)
Theorem request_token_sources (req : Request.t) :
  (∀ t, Request.searchParams req !! "token" = Some t → t ≠ "" →
        getRequestToken req = t)
  ∧ (str_or (Request.searchParams req !! "token") "" = "" →
     (∀ rest, Request.authorization req = Some ("Bearer " +:+ rest) →
              getRequestToken req = trim rest)
     ∧ (startsWith (str_or (Request.authorization req) "") "Bearer " = false →
        getRequestToken req = ""))
  ∧ (∀ t, DASHBOARD_TOKEN ≠ "" →
          Request.searchParams req !! "token" = Some t → t ≠ "" →
          t ≠ DASHBOARD_TOKEN →
          is_Some (ensureAuthorized DASHBOARD_TOKEN req)).
Proof.
  assert (Hquery : ∀ t, Request.searchParams req !! "token" = Some t → t ≠ "" →
                        getRequestToken req = t).
  { intros t Ht Hne. unfold getRequestToken, nonempty. rewrite Ht. simpl.
    by rewrite !(bool_decide_eq_false_2 (t = "")). }
  split; [done|]. split.
  - intros Hnone. unfold getRequestToken. rewrite Hnone. simpl. split.
    + intros rest ->. rewrite str_or_some.
      rewrite (startsWith_append "Bearer " rest).
      done.
    + by intros ->.
  - intros t Htoken Ht Hne Hwrong. unfold ensureAuthorized, nonempty.
    rewrite (bool_decide_eq_false_2 (DASHBOARD_TOKEN = "")) by done.
    rewrite (Hquery t) by done.
    rewrite (bool_decide_eq_false_2 (t = DASHBOARD_TOKEN)) by done.
    simpl. case_bool_decide; eauto.
Qed.

Lemma telemetry_kept_refl st : telemetry_kept st st.
Proof. by repeat split. Qed.

Lemma telemetry_kept_alloc o st : telemetry_kept st (alloc o st).2.
Proof. repeat split; try done. intros l. apply alloc_lookup_old. Qed.

Lemma telemetry_kept_update patch now st :
  telemetry_kept st (updateStrategyConfig patch now st).2.
Proof.
  destruct patch as [p|]; [|apply telemetry_kept_alloc].
  repeat split; try done. intros l Hl.
  by apply (alloc_lookup_old _ (set_strategy _ st)).
Qed.

(** X18: no request, authorized or not, changes the status, the baseline,
    the log, its id counter or any object that already exists; the shared
    configuration changes only on POST /api/settings and the strategy record
    only on POST /api/strategy. *)
Theorem requests_change_only_what_they_post (req : Request.t)
    (body : outcome jsbody) (now serverTime : number) (st : State) (cfg : Config) :
  let st' := (handle req body now serverTime st cfg).1.2 in
  let cfg' := (handle req body now serverTime st cfg).2 in
  telemetry_kept st st'
  ∧ (cfg' ≠ cfg →
     Request.method req = "POST" ∧ Request.pathname req = "/api/settings")
  ∧ (strategy st' ≠ strategy st →
     Request.method req = "POST" ∧ Request.pathname req = "/api/strategy").
Proof.
  intros st' cfg'. subst st' cfg'. unfold handleRequest.
  pose proof (telemetry_kept_refl st) as Hrefl.
  pose proof (telemetry_kept_alloc (strategy_snapshot (strategy st)) st) as Halloc.
  destruct (ensureAuthorized DASHBOARD_TOKEN req); [done|].
  destruct (startsWith _ "/calc");
    [by destruct (resolveFarmCalcFile _ _ _)|].
  destruct (getCalcPayload _ _ _ _ _ _) as [calc|msg].
  all: repeat match goal with
       | |- context [bool_decide (?x = ?y :> string)] =>
           destruct (bool_decide (x = y)) eqn:?
       end; cbn [andb]; try done.
  all: repeat match goal with
       | Heq : bool_decide _ = true |- _ => apply bool_decide_eq_true in Heq
       end.
  all: destruct body as [b|e]; try done.
  all: try (by destruct (updateRuntimeSettings (body_or_empty b) cfg) as [[s|e] c]).
  all: pose proof (telemetry_kept_update (body_or_empty b) now st) as Hkept;
    by destruct (updateStrategyConfig (body_or_empty b) now st) as [r st1].
Qed.

Lemma ensureAuthorized_denies req r :
  ensureAuthorized DASHBOARD_TOKEN req = Some r →
  r = Text 401 "Dashboard token required. Use ?token=YOUR_TOKEN"
  ∨ r = Json 401 (ErrorBody "Unauthorized").
Proof.
  unfold ensureAuthorized. intros Hr.
  destruct (negb _); [done|]. destruct (bool_decide (_ = DASHBOARD_TOKEN)); [done|].
  destruct (bool_decide _); simplify_eq; auto.
Qed.

Lemma handle_settings req body now serverTime st cfg :
  ensureAuthorized DASHBOARD_TOKEN req = None →
  Request.pathname req = "/api/settings" →
  handle req body now serverTime st cfg
  = if bool_decide (Request.method req = "GET") then
      match getRuntimeSettings cfg with
      | (Returned settings, cfg') => (Json 200 (SettingsBody settings), st, cfg')
      | (Thrown msg, cfg') => (Uncaught msg, st, cfg')
      end
    else if bool_decide (Request.method req = "POST") then
      match body with
      | Returned b =>
          match updateRuntimeSettings (body_or_empty b) cfg with
          | (Returned settings, cfg') => (Json 200 (SettingsBody settings), st, cfg')
          | (Thrown msg, cfg') =>
              (Json 400 (ErrorBody (str_or (Some msg) "invalid_json")), st, cfg')
          end
      | Thrown msg =>
          (Json 400 (ErrorBody (str_or (Some msg) "invalid_json")), st, cfg)
      end
    else (Json 404 (ErrorBody "Not Found"), st, cfg).
Proof.
  intros Hauth Hpath. unfold handleRequest. rewrite Hauth, Hpath.
  change (startsWith "/api/settings" "/calc") with false.
  rewrite (bool_decide_eq_false_2 ("/api/settings" = "/")) by done.
  rewrite (bool_decide_eq_false_2 ("/api/settings" = "/api/state")) by done.
  rewrite (bool_decide_eq_true_2 ("/api/settings" = "/api/settings")) by done.
  rewrite (bool_decide_eq_false_2 ("/api/settings" = "/api/calc")) by done.
  rewrite (bool_decide_eq_false_2 ("/api/settings" = "/api/strategy")) by done.
  rewrite (bool_decide_eq_false_2 ("/api/settings" = "/api/logs")) by done.
  cbn [andb]. by repeat case_bool_decide.
Qed.

Lemma str_or_nonempty v d : d ≠ "" → str_or v d ≠ "".
Proof. intros Hd. unfold str_or. destruct v; [by case_bool_decide|done]. Qed.


(** What a response says about the branch of [handleRequest] that sent it. *)
Lemma handle_inversion req body now serverTime st cfg :
  let resp := (handle req body now serverTime st cfg).1.1 in
  (∀ calc, resp = Json 200 (CalcBody calc) →
     ∃ level lands mode,
       (mode = "noFert" ∨ mode = "normalFert")
       ∧ getCalcPayload getPlantingRecommendation level lands mode
           (requested_top req) now = Returned calc)
  ∧ (∀ abs, resp = ServeFile abs →
       resolveFarmCalcFile resolve_in_root resolved_root (Request.pathname req)
       = Some abs).
Proof.
  intros resp. subst resp. unfold handleRequest.
  destruct (ensureAuthorized DASHBOARD_TOKEN req) as [r|] eqn:Hauth.
  { apply ensureAuthorized_denies in Hauth. cbn [fst snd].
    by destruct Hauth as [->| ->]. }
  destruct (startsWith _ "/calc").
  { destruct (resolveFarmCalcFile _ _ _); cbn [fst snd]; [|done].
    split; [done|]. by intros abs [= ->]. }
  destruct (bool_decide (Request.searchParams req !! "mode" = Some "noFert")).
  all: destruct (getCalcPayload _ _ _ _ _ _) as [calc0|msg] eqn:Hcalc.
  all: repeat match goal with
       | |- context [bool_decide (?x = ?y :> string)] =>
           destruct (bool_decide (x = y))
       end; cbn [andb fst snd]; try done.
  all: try (by destruct (getRuntimeSettings cfg) as [[s|e] c]).
  all: try (split; [|done]; intros calc [= <-]; eauto 10).
  all: destruct body as [b|e]; try done.
  all: try (by destruct (updateRuntimeSettings (body_or_empty b) cfg) as [[s|e] c]).
  all: by destruct (updateStrategyConfig (body_or_empty b) now st) as [r st1].
Qed.

Lemma clamp_top x :
  Num.max (num 1) (Num.min (num 50) x) = NaN
  ∨ ∃ q, Num.max (num 1) (Num.min (num 50) x) = Fin q
         ∧ (Qc_of_Z 1 ≤ q)%Qc ∧ (q ≤ Qc_of_Z 50)%Qc.
Proof.
  destruct x as [| | |q]; [by left|right..].
  - exists (Qc_of_Z 50). split; [compute_done|].
    split; [by apply Z2Qc_inj_le|done].
  - exists (Qc_of_Z 1). split; [compute_done|].
    split; [done|by apply Z2Qc_inj_le].
  - unfold Num.min, Num.max, num, Num.ltb.
    case_bool_decide as H50; [|case_bool_decide as H1].
    + case_bool_decide as H1.
      * exists q. split; [done|]. split; by apply Qclt_le_weak.
      * exists (Qc_of_Z 1). split; [done|]. split; [done|by apply Z2Qc_inj_le].
    + exists (Qc_of_Z 50). split; [done|]. split; [by apply Z2Qc_inj_le|done].
    + destruct H1. by apply Z2Qc_inj_lt.
Qed.

Lemma slice_to_length {A} (l : list A) q z :
  (Qc_of_Z 1 ≤ q)%Qc → (q ≤ Qc_of_Z z)%Qc →
  (length (slice_to l (Fin q)) ≤ Z.to_nat z)%nat.
Proof.
  intros H1 Hz. unfold slice_to, truncate.
  assert (Hpos : (0 ≤ q)%Qc).
  { apply Qcle_trans with (Qc_of_Z 1); [|done]. by apply (Z2Qc_inj_le 0 1). }
  rewrite (bool_decide_eq_true_2 _ Hpos).
  assert (1 ≤ Qfloor q ≤ z) as [Hlo Hhi].
  { split.
    - rewrite <-(Qfloor_Z 1). by apply Qfloor_resp_le.
    - rewrite <-(Qfloor_Z z). by apply Qfloor_resp_le. }
  rewrite bool_decide_eq_false_2 by lia.
  rewrite length_take. lia.
Qed.

(** X20: a calculator response never carries more than 50 candidates, and
    never more than 10 when the request has no [top] parameter; a [top]
    that is not a number gives no candidates at all; and the mode reported
    is always one of noFert and normalFert. *)
Theorem calc_candidates_bounded (req : Request.t) (body : outcome jsbody)
    (now serverTime : number) (st : State) (cfg : Config) (calc : CalcPayload) :
  (handle req body now serverTime st cfg).1.1 = Json 200 (CalcBody calc) →
  (length (calc_candidates calc) ≤ 50)%nat
  ∧ (Request.searchParams req !! "top" = None →
     (length (calc_candidates calc) ≤ 10)%nat)
  ∧ (requested_top req = NaN → calc_candidates calc = [])
  ∧ (calc_mode calc = "noFert" ∨ calc_mode calc = "normalFert").
Proof.
  intros Hresp.
  destruct (handle_inversion req body now serverTime st cfg) as [Hcalc _].
  destruct (Hcalc calc Hresp) as (level & lands & mode & Hmode & Hpayload).
  unfold getCalcPayload in Hpayload.
  destruct (getPlantingRecommendation _ _ _) as [rec|]; [|done].
  injection Hpayload as <-. cbn [calc_candidates calc_mode].
  split; [|split; [|split; [|done]]].
  - unfold requested_top.
    destruct (clamp_top (ToNumber (js_or (get_param req "top") (VNum (num 10)))))
      as [->|(q & -> & H1 & H50)]; [simpl; lia|].
    by apply (slice_to_length _ q 50).
  - intros Htop. unfold requested_top, get_param. rewrite Htop.
    change (ToNumber (js_or (from_option VStr VNull None) (VNum (num 10))))
      with (num 10).
    rewrite min_num, NumFacts.max_num.
    apply (slice_to_length _ _ 10); by apply Z2Qc_inj_le.
  - by intros ->.
Qed.

Lemma replace_backslashes_clean s :
  backslash ∉ String.list_ascii_of_string (replace_backslashes s).
Proof.
  induction s as [|c s IH]; simpl; [by apply not_elem_of_nil|].
  apply not_elem_of_cons. split; [|done].
  case_bool_decide; [done|by intros ?].
Qed.

(** X21: a file is served only for a path that starts with /calc, and the
    file is always the resolution, within the calculator's root, of a
    relative path without backslashes, which itself starts with the resolved
    root; /calc and /calc/ both stand for index.html. *)
Theorem served_files_under_root (req : Request.t) (body : outcome jsbody)
    (now serverTime : number) (st : State) (cfg : Config) (abs : string) :
  (handle req body now serverTime st cfg).1.1 = ServeFile abs →
  startsWith (Request.pathname req) "/calc" = true
  ∧ startsWith abs resolved_root = true
  ∧ (∃ rel, abs = resolve_in_root ("." +:+ rel)
            ∧ (backslash ∉ String.list_ascii_of_string rel)
            ∧ (Request.pathname req = "/calc" ∨ Request.pathname req = "/calc/" →
               rel = "/index.html")).
Proof.
  intros Hresp.
  destruct (handle_inversion req body now serverTime st cfg) as [_ Hfile].
  specialize (Hfile abs Hresp). unfold resolveFarmCalcFile in Hfile.
  destruct (startsWith (Request.pathname req) "/calc"); [|done].
  cbn [negb] in Hfile.
  destruct (startsWith (resolve_in_root _) resolved_root) eqn:Hroot; [|done].
  injection Hfile as <-. split; [done|]. split; [done|].
  eexists. split; [done|]. split; [apply replace_backslashes_clean|].
  intros [-> | ->]; by vm_compute.
Qed.

End HttpProperties.

(** ** The launcher *)

Section LauncherProperties.
Context `{StringMethods}.
Variable clientPath : string.

Lemma validateArgs_passes args :
  validateArgs args = None ↔ ∃ f, f ∈ launch_flags ∧ f ∈ args.
Proof.
  unfold validateArgs, hasArg, launch_flags.
  repeat case_bool_decide; cbn [negb andb orb]; split; try done.
  all: try (intros _; eexists; split; [|eassumption];
            rewrite !elem_of_cons; tauto).
  intros (f & Hf & Hin).
  repeat (apply elem_of_cons in Hf as [->|Hf]; [done|]).
  by apply elem_of_nil in Hf.
Qed.

Lemma buildArgs_elements env x :
  x ∈ buildArgs clientPath [] env
  ↔ x = clientPath
    ∨ (launch_isWx env = true ∧ x = "--wx")
    ∨ (launch_qrLogin env = true ∧ launch_isWx env = false ∧ x = "--qr")
    ∨ (launch_code env ≠ "" ∧ (x = "--code" ∨ x = launch_code env))
    ∨ (str_or (env !! "FARM_INTERVAL") "" ≠ ""
       ∧ (x = "--interval" ∨ x = str_or (env !! "FARM_INTERVAL") ""))
    ∨ (str_or (env !! "FRIEND_INTERVAL") "" ≠ ""
       ∧ (x = "--friend-interval" ∨ x = str_or (env !! "FRIEND_INTERVAL") "")).
Proof.
  unfold buildArgs, nonempty. cbn [length bool_decide]. cbv zeta.
  rewrite (bool_decide_eq_false_2 (0 < 0)%nat) by lia.
  destruct (launch_isWx env), (launch_qrLogin env); cbn [andb negb].
  all: repeat case_bool_decide; cbn [negb].
  all: rewrite ?elem_of_app, ?elem_of_cons, ?elem_of_nil.
  all: intuition (subst; auto 10; congruence).
Qed.

(** X22: arguments on the command line replace the environment altogether:
    the child is started with the client script followed by exactly those
    arguments, whatever the environment holds, and the launcher goes on
    exactly when one of --code, --qr, --decode and --verify is among them. *)
Theorem launcher_arguments_override_environment (userArgs : list string)
    (env : gmap string string) :
  userArgs ≠ [] →
  buildArgs clientPath userArgs env = clientPath :: userArgs
  ∧ (clientPath ∉ launch_flags →
     validateArgs (buildArgs clientPath userArgs env) = None
     ↔ ∃ f, f ∈ launch_flags ∧ f ∈ userArgs).
Proof.
  intros Hargs.
  assert (Hbuild : buildArgs clientPath userArgs env = clientPath :: userArgs).
  { unfold buildArgs. destruct userArgs as [|a l]; [done|].
    by rewrite bool_decide_eq_true_2 by (simpl; lia). }
  split; [done|]. intros Hclient. rewrite Hbuild, validateArgs_passes.
  split; intros (f & Hf & Hin); exists f; (split; [done|]).
  - apply elem_of_cons in Hin as [->|]; done.
  - by apply elem_of_cons; right.
Qed.

(** X23: started without arguments, the launcher goes on exactly when the
    environment gives a login code for the platform (WX_CODE or CODE for wx,
    QQ_CODE or CODE otherwise), or asks for QR login on a platform other
    than wx, or when FARM_INTERVAL or FRIEND_INTERVAL is itself one of the
    four flags; otherwise it ends the process with code 1. So QR_LOGIN on
    the wx platform without a code ends the process. *)
Theorem launcher_requires_login (env : gmap string string) :
  clientPath ∉ launch_flags →
  (validateArgs (buildArgs clientPath [] env) = None
   ↔ launch_code env ≠ ""
     ∨ (launch_qrLogin env = true ∧ launch_isWx env = false)
     ∨ str_or (env !! "FARM_INTERVAL") "" ∈ launch_flags
     ∨ str_or (env !! "FRIEND_INTERVAL") "" ∈ launch_flags)
  ∧ (validateArgs (buildArgs clientPath [] env) = None
     ∨ validateArgs (buildArgs clientPath [] env) = Some 1).
Proof.
  intros Hclient. split; [|unfold validateArgs; destruct (_ && _); auto].
  assert (Hflag : ∀ f, f ∈ launch_flags ↔
            f = "--code" ∨ f = "--qr" ∨ f = "--decode" ∨ f = "--verify").
  { intros f. unfold launch_flags.
    rewrite !elem_of_cons, elem_of_nil. tauto. }
  rewrite validateArgs_passes. split.
  - intros (f & Hf & Hin). apply buildArgs_elements in Hin.
    destruct Hin as [->|[[_ ->]|[(? & ? & ->)|[[? Hc]|[[? Hc]|[? Hc]]]]]].
    + done.
    + apply Hflag in Hf. by destruct Hf as [?|[?|[?|?]]].
    + auto.
    + auto.
    + destruct Hc as [->| ->]; [|auto].
      apply Hflag in Hf. by destruct Hf as [?|[?|[?|?]]].
    + destruct Hc as [->| ->]; [|auto].
      apply Hflag in Hf. by destruct Hf as [?|[?|[?|?]]].
  - intros [Hcode|[[Hqr Hwx]|[Hfarm|Hfriend]]].
    + exists "--code". split; [apply Hflag; auto|].
      apply buildArgs_elements. auto 10.
    + exists "--qr". split; [apply Hflag; auto|].
      apply buildArgs_elements. auto 10.
    + eexists. split; [exact Hfarm|]. apply buildArgs_elements.
      do 4 right. left. split; [|by right].
      intros Heq. rewrite Heq in Hfarm.
      apply Hflag in Hfarm. by destruct Hfarm as [?|[?|[?|?]]].
    + eexists. split; [exact Hfriend|]. apply buildArgs_elements.
      do 5 right. split; [|by right].
      intros Heq. rewrite Heq in Hfriend.
      apply Hflag in Hfriend. by destruct Hfriend as [?|[?|[?|?]]].
Qed.

End LauncherProperties.

(** * Further properties on concrete runs *)

Section MoreExamples.
#[local] Existing Instance decimal_builtins.
#[local] Existing Instance ascii_methods.

Let st0 : State := initial_state (num 0).
Let st_A : State := updateStatus (Some update_A) st0.
Let st_manual : State :=
  (updateStrategyConfig
     (Some {[ "manualSeedId" := VNum (num 7); "manualSeedName" := VStr "X" ]})
     (num 1) st0).2.
Let st_decided : State :=
  recordStrategyDecision (Some {[ "seedId" := VNum (num 3) ]}) (num 2) st0.
Let five_calls : list (value * value * string) :=
  [ (VStr "INFO", VStr "a", "t1"); (VStr "INFO", VStr "b", "t2");
    (VStr "WARN", VStr "c", "t3"); (VStr "INFO", VStr "d", "t4");
    (VStr "ERROR", VStr "e", "t5") ].

(** After the baseline is anchored for A at gold 50 and exp 100, two
    reports of exp and gold leave it there. *)
Lemma baseline_frozen_witness :
  let updates : list obj :=
    [ {[ "exp" := VNum (num 150); "gold" := VNum (num 80) ]};
      {[ "exp" := VNum (num 170) ]} ] in
  baseline (updateStatuses (Some <$> updates) st_A)
  = Baseline.mk (Some (num 50)) (Some (num 100)) true "qq:A".
Proof.
  intros updates. rewrite (baseline_frozen st_A updates).
  - by vm_compute.
  - by vm_compute.
  - by vm_compute.
  - repeat first [apply Forall_nil | apply List.Forall_cons]; by vm_compute.
Defined.

(** Before any baseline is anchored, the gains read 0. *)
Lemma no_baseline_no_gain_witness :
  let m := buildMetrics (constant_progress (VNum (num 0)) (VNum (num 100)))
                        (num 600) st0 in
  expGain m = num 0 ∧ goldGain m = num 0.
Proof.
  intros m.
  destruct (no_baseline_no_gain (constant_progress (VNum (num 0)) (VNum (num 100)))
              (num 600) st0 eq_refl) as [Hexp Hgold].
  split; [apply Hexp|apply Hgold]; by vm_compute.
Defined.

(** Five appends with capacity 3 keep the last three entries. *)
Lemma log_keeps_most_recent_witness :
  let st := addLogs (num 3) five_calls st0 in
  logs st = [ LogEntry.mk 3 "t3" (VStr "WARN") "c";
              LogEntry.mk 4 "t4" (VStr "INFO") "d";
              LogEntry.mk 5 "t5" (VStr "ERROR") "e" ]
  ∧ length (logs st) = 3%nat.
Proof.
  intros st.
  destruct (log_keeps_most_recent 3 (num 0) five_calls) as [Hlogs Hlen]; [lia|].
  split; [exact Hlogs|exact Hlen].
Defined.

(** With capacity 3 and five entries logged, a poll with the last id after
    one more append returns the new entry alone. *)
Lemma polling_with_lastLogId_witness :
  let st := addLogs (num 3) five_calls st0 in
  Num.leb (num 1) (num 3) = true
  ∧ getLogsSince (num (lastLogId st))
                 (addLog (num 3) (VStr "INFO") (VStr "f") "t6" st)
    = [new_entry (VStr "INFO") (VStr "f") "t6" st].
Proof.
  intros st. split; [by vm_compute|].
  destruct (polling_with_lastLogId (num 3) (num 0) five_calls) as [_ Hnew].
  apply Hnew. by vm_compute.
Defined.


(** The store after a manual seed was set is well formed. *)
Lemma strategy_always_wellformed_witness :
  strategy_wellformed (strategy st_manual).
Proof. apply strategy_always_wellformed, st_manual_reachable. Defined.

(** [update({manualSeedId: 9})] after the seed X was set keeps the name X. *)
Lemma manual_name_fallback_witness :
  let p : obj := {[ "manualSeedId" := VNum (num 9) ]} in
  let s' := strategy (updateStrategyConfig (Some p) (num 2) st_manual).2 in
  source s' = "manual" ∧ manualSeedId s' = num 9 ∧ manualSeedName s' = "X".
Proof.
  intros p s'.
  destruct (manual_name_fallback p (num 2) st_manual) as (Hsrc & Hid & Hname);
    [by vm_compute..|].
  split; [exact Hsrc|]. split; [|exact Hname].
  transitivity (patch_sid p); [exact Hid|compute_done].
Defined.

(** The snapshot of the store after the seed X was set is a new object that
    shows the name X. *)
Lemma getStrategyConfig_reads_back_witness :
  let r := (getStrategyConfig st_manual).1 in
  heap st_manual !! r = None
  ∧ ∃ o, heap (getStrategyConfig st_manual).2 !! r = Some o
         ∧ prop o "manualSeedName" = VStr "X".
Proof.
  intros r.
  destruct (getStrategyConfig_reads_back st_manual st_manual_reachable)
    as (Hnew & o & Ho & _ & _ & Hname & _).
  split; [exact Hnew|]. exists o. split; [exact Ho|exact Hname].
Defined.

(** A second decision leaves the object of the first one as it was, and
    is stored as another object. *)
Lemma store_writes_only_new_objects_witness :
  let st' :=
    recordStrategyDecision (Some {[ "seedId" := VNum (num 4) ]}) (num 3)
                           st_decided in
  lastDecision (strategy st_decided) = Some 1%positive
  ∧ heap st' !! 1%positive = heap st_decided !! 1%positive
  ∧ lastDecision (strategy st') ≠ Some 1%positive.
Proof.
  intros st'. split; [by vm_compute|].
  destruct (store_writes_only_new_objects st_decided st' 1%positive)
    as [Hkept Hnew].
  - apply step_record.
  - by vm_compute; eexists.
  - split; [exact Hkept|].
    exact (proj1 (Hnew (Some {[ "seedId" := VNum (num 4) ]}) (num 3) eq_refl)).
Defined.

(** Intervals of 0 and NaN milliseconds both read as 1 second. *)
Lemma getRuntimeSettings_at_least_one_second_witness :
  let cfg := {| farmCheckInterval := num 0; friendCheckInterval := NaN |} in
  ∃ s, getRuntimeSettings cfg = (Returned s, cfg)
       ∧ farmIntervalSec s = num 1 ∧ friendIntervalSec s = num 1.
Proof.
  intros cfg.
  destruct (getRuntimeSettings_at_least_one_second cfg)
    as (s & Hget & _ & _ & _ & _ & Hfarm & Hfriend).
  exists s. split; [exact Hget|].
  split; [apply Hfarm|apply Hfriend]; by vm_compute.
Defined.


(** A dashboard with the token "secret", a calculator root /srv/FarmCalc
    in which a relative path without dot segments is resolved by joining,
    a constant level curve and a recommendation of four candidates. *)
Let resolve : string → string := λ rel, "/srv/FarmCalc" +:+ slice_from 1 rel.
Let progress : number → number → Progress :=
  constant_progress (VNum (num 0)) (VNum (num 100)).
Let recommend : number → number → number → outcome Recommendation :=
  λ _ _ _, Returned (mkRecommendation VNull VNull
                       [VStr "a"; VStr "b"; VStr "c"; VStr "d"] [VStr "e"]
                       (VStr "a") (VStr "e")).
Let cfg0 : Config :=
  {| farmCheckInterval := num 5000; friendCheckInterval := num 1000 |}.

(** GET /api/state?token=guess is answered 401. *)
Lemma unauthorized_requests_denied_witness :
  let req := Request.mk "GET" "/api/state" {[ "token" := "guess" ]} None in
  handleRequest "secret" resolve "/srv/FarmCalc" progress recommend
                req (Thrown "") (num 9) (num 9) st0 cfg0
  = (Json 401 (ErrorBody "Unauthorized"), st0, cfg0).
Proof.
  intros req.
  rewrite (unauthorized_requests_denied "secret" resolve "/srv/FarmCalc"
             progress recommend req (Thrown "") (num 9) (num 9) st0 cfg0).
  - by vm_compute.
  - done.
  - by vm_compute.
Defined.

(** A request with ?token=guess and the header "Bearer secret" has the
    token guess, and is denied. *)
Lemma request_token_sources_witness :
  let req := Request.mk "GET" "/api/state" {[ "token" := "guess" ]}
                        (Some "Bearer secret") in
  getRequestToken req = "guess" ∧ is_Some (ensureAuthorized "secret" req).
Proof.
  intros req.
  destruct (request_token_sources "secret" req) as (Hquery & _ & Hdenied).
  split.
  - by apply Hquery.
  - by apply (Hdenied "guess").
Defined.


(** GET /api/calc?top=3&mode=noFert returns three of the four candidates. *)
Lemma calc_candidates_bounded_witness :
  let req := Request.mk "GET" "/api/calc"
               {[ "top" := "3"; "mode" := "noFert" ]} None in
  let calc := mkCalcPayload VNull VNull "noFert" (VStr "a")
                            [VStr "a"; VStr "b"; VStr "c"] (num 9) in
  (handleRequest "" resolve "/srv/FarmCalc" progress recommend
                 req (Thrown "") (num 9) (num 9) st0 cfg0).1.1
  = Json 200 (CalcBody calc)
  ∧ (length (calc_candidates calc) ≤ 50)%nat.
Proof.
  intros req calc.
  assert (Hresp : (handleRequest "" resolve "/srv/FarmCalc" progress recommend
                     req (Thrown "") (num 9) (num 9) st0 cfg0).1.1
                  = Json 200 (CalcBody calc)) by (by vm_compute).
  split; [exact Hresp|].
  exact (proj1 (calc_candidates_bounded "" resolve "/srv/FarmCalc" progress
                  recommend req (Thrown "") (num 9) (num 9) st0 cfg0 calc Hresp)).
Defined.

(** GET /calc/app.js serves /srv/FarmCalc/app.js. *)
Lemma served_files_under_root_witness :
  let req := Request.mk "GET" "/calc/app.js" ∅ None in
  (handleRequest "" resolve "/srv/FarmCalc" progress recommend
                 req (Thrown "") (num 9) (num 9) st0 cfg0).1.1
  = ServeFile "/srv/FarmCalc/app.js"
  ∧ startsWith "/srv/FarmCalc/app.js" "/srv/FarmCalc" = true.
Proof.
  intros req.
  assert (Hresp : (handleRequest "" resolve "/srv/FarmCalc" progress recommend
                     req (Thrown "") (num 9) (num 9) st0 cfg0).1.1
                  = ServeFile "/srv/FarmCalc/app.js") by (by vm_compute).
  split; [exact Hresp|].
  exact (proj1 (proj2 (served_files_under_root "" resolve "/srv/FarmCalc" progress
                         recommend req (Thrown "") (num 9) (num 9) st0 cfg0
                         "/srv/FarmCalc/app.js" Hresp))).
Defined.

(** [node index.js --code abc] with QQ_CODE set in the environment: the
    child gets the client script and the two arguments. *)
Lemma launcher_arguments_override_environment_witness :
  buildArgs "/app/client.js" ["--code"; "abc"] {[ "QQ_CODE" := "xyz" ]}
  = ["/app/client.js"; "--code"; "abc"].
Proof.
  by apply (launcher_arguments_override_environment "/app/client.js"
              ["--code"; "abc"] {[ "QQ_CODE" := "xyz" ]}).
Defined.

(** PLATFORM=WX with WX_CODE set passes the validation. *)
Lemma launcher_requires_login_witness :
  let env : gmap string string := {[ "PLATFORM" := "WX"; "WX_CODE" := "abc" ]} in
  ("/app/client.js" ∉ launch_flags)
  ∧ validateArgs (buildArgs "/app/client.js" [] env) = None.
Proof.
  intros env.
  assert (Hclient : "/app/client.js" ∉ launch_flags) by compute_done.
  split; [exact Hclient|].
  apply (launcher_requires_login "/app/client.js" env Hclient).
  left. by vm_compute.
Defined.

End MoreExamples.
